(** * Mouse-trail effect of the creative portfolio template

    Shallow embedding of section 9, MOUSE TRAIL EFFECT, of
    [assets/js/main.js]: the start-up code, the [resize] handler, the
    [mousemove] listener and the per-frame [draw] callback; and, after it,
    of the page behaviour of sections 1 to 8.

    JavaScript numbers ([performance.now()], pointer coordinates, opacities)
    are idealised as exact rationals [Q]; equalities between computed numbers
    are therefore stated with [==] ([Qeq]).  The clock, the viewport size and
    the pointer position are inputs of the operation that reads them. *)

From Stdlib Require Import String List ZArith QArith Qminmax Lia Lqa Bool.
Import ListNotations.

Local Open Scope Q_scope.

(** ** Outcomes of JavaScript code that may raise *)

Module JS.

(** A completion: a value, or the [TypeError] raised by reading a property
    of [null] or [undefined]. *)
Inductive Result (A : Type) : Type :=
| Ok (a : A)
| TypeError.

Arguments Ok {A} a.
Arguments TypeError {A}.

Definition bind {A B : Type} (r : Result A) (k : A -> Result B) : Result B :=
  match r with
  | Ok a => k a
  | TypeError => TypeError
  end.

(** [a > b] and [a >= b] on numbers. *)
Definition gt (a b : Q) : bool := negb (Qle_bool a b).
Definition ge (a b : Q) : bool := Qle_bool b a.

End JS.

Import JS.

Notation "x <- r ;; k" := (JS.bind r (fun x => k))
  (at level 61, r at next level, right associativity).

(** ** Data *)

(** [{ x: e.clientX, y: e.clientY }] *)
Record Point : Type := mkPoint { x : Q; y : Q }.

Inductive LineCap : Type := Butt | Round | Square.

(** The colour written by [`rgba(255, 0, 0, ${alpha})`]. *)
Record Rgba : Type := rgba { red : Z; green : Z; blue : Z; opacity : Q }.

(** Calls the trail code makes on the host: the frame scheduler and the 2D
    context [ctx]. *)
Inductive Call : Type :=
| RequestAnimationFrame
| ClearRect (cx cy cw ch : Q)
| SetLineWidth (w : Q)
| SetLineCap (c : LineCap)
| SetStrokeStyle (c : Rgba)
| BeginPath
| MoveTo (px py : Q)
| LineTo (px py : Q)
| Stroke.

(** The variables of the trail code: the size of the [canvas] element, the
    array [points] (oldest first) and the time stamp [lastMove]. *)
Record Trail : Type := mkTrail {
  canvasWidth : Z;
  canvasHeight : Z;
  points : list Point;
  lastMove : Q
}.

Definition maxTrail : nat := 30.
Definition trailIdleTimeout : Q := 100.
Definition trailFadeDuration : Q := 250.

(** ** Operations *)

(** [function resize()], with [window.innerWidth] and [window.innerHeight]
    as arguments. *)
Definition resize (innerWidth innerHeight : Z) (s : Trail) : Trail :=
  mkTrail innerWidth innerHeight (points s) (lastMove s).

(** [points.shift()]: drops the first element, if there is one. *)
Definition shift (ps : list Point) : list Point := tl ps.

(** The [mousemove] listener; [now] is what [performance.now()] returns and
    [e] carries [clientX] and [clientY]. *)
Definition record (now : Q) (e : Point) (s : Trail) : Trail :=
  let lastMove' := now in
  let pushed := points s ++ [mkPoint (x e) (y e)] in
  let points' :=
    if (maxTrail <? length pushed)%nat then shift pushed else pushed in
  mkTrail (canvasWidth s) (canvasHeight s) points' lastMove'.

(** The value of the local [fadeProgress] of [draw] for a given [idle]. *)
Definition fadeProgress (idle : Q) : Q :=
  if JS.gt idle trailIdleTimeout
  then Qmin ((idle - trailIdleTimeout) / trailFadeDuration) 1
  else 0.

(** [points[i]]: [undefined] outside the array, whose property read raises. *)
Definition pointAt (ps : list Point) (i : nat) : Result Point :=
  match nth_error ps i with
  | Some p => Ok p
  | None => TypeError
  end.

(** One iteration of the loop body of [draw], at index [i]. *)
Definition drawSegment (ps : list Point) (fp : Q) (i : nat)
  : Result (list Call) :=
  p1 <- pointAt ps (i - 1) ;;
  p2 <- pointAt ps i ;;
  let baseAlpha := inject_Z (Z.of_nat i) / inject_Z (Z.of_nat (length ps)) in
  let alpha := baseAlpha * (1 - fp) in
  Ok [ SetStrokeStyle (rgba 255 0 0 alpha);
       BeginPath;
       MoveTo (x p1) (y p1);
       LineTo (x p2) (y p2);
       Stroke ].

(** [for (let i = 1; i < points.length; i++)], as the list of the indices
    the loop visits; neither [i] nor [points] is assigned in the body. *)
Definition loopIndices (ps : list Point) : list nat :=
  seq 1 (length ps - 1).

Fixpoint drawLoop (ps : list Point) (fp : Q) (idxs : list nat)
  : Result (list Call) :=
  match idxs with
  | [] => Ok []
  | i :: rest =>
      cs <- drawSegment ps fp i ;;
      more <- drawLoop ps fp rest ;;
      Ok (cs ++ more)
  end.

(** [function draw()]; [now] is what [performance.now()] returns.  The
    result is the new state and the host calls made, in order. *)
Definition draw (now : Q) (s : Trail) : Result (Trail * list Call) :=
  let head :=
    [ RequestAnimationFrame;
      ClearRect 0 0 (inject_Z (canvasWidth s)) (inject_Z (canvasHeight s)) ] in
  if (length (points s) <? 2)%nat then Ok (s, head)
  else
    let idle := now - lastMove s in
    let fp := fadeProgress idle in
    if JS.ge fp 1
    then Ok (mkTrail (canvasWidth s) (canvasHeight s) [] (lastMove s), head)
    else
      strokes <- drawLoop (points s) fp (loopIndices (points s)) ;;
      Ok (s, head ++ [SetLineWidth 8; SetLineCap Round] ++ strokes).

(** *** Start-up *)

(** The [canvas] element as the page declares it. *)
Record CanvasElement : Type := mkCanvas { width : Z; height : Z }.

(** The page, as far as start-up looks at it: its elements by [id]. *)
Definition Document : Type := list (string * CanvasElement).

Fixpoint getElementById (doc : Document) (id : string)
  : option CanvasElement :=
  match doc with
  | [] => None
  | (k, el) :: rest =>
      if String.eqb k id then Some el else getElementById rest id
  end.

(** [canvas.getContext("2d")]: reading [getContext] of [null] raises.  An
    element that is found is taken to be a canvas that hands out its 2D
    context; start-up on an element of another kind is outside the model. *)
Definition getContext (canvas : option CanvasElement)
  : Result CanvasElement :=
  match canvas with
  | Some el => Ok el
  | None => TypeError
  end.

(** Listeners registered at start-up. *)
Inductive Listener : Type := OnResize | OnMouseMove.

(** The top-level statements of the section, in order.  [t0] is the clock
    reading stored in [lastMove], [t1] the one taken by the first [draw()];
    [points] and [lastMove], which [resize] does not touch, are given their
    initial values from the start.  The result is the state, the listeners
    registered and the host calls made. *)
Definition init (doc : Document) (innerWidth innerHeight : Z) (t0 t1 : Q)
  : Result (Trail * list Listener * list Call) :=
  let canvas := getElementById doc "trailCanvas"%string in
  el <- getContext canvas ;;
  let s := resize innerWidth innerHeight
             (mkTrail (width el) (height el) [] t0) in
  r <- draw t1 s ;;
  Ok (fst r, [OnResize; OnMouseMove], snd r).

(** ** The drawing surface

    What the calls of [draw] do to the canvas, as far as the trail code uses
    the 2D context: no transform is ever set, paths are single segments. *)

Record Painted : Type := mkPainted {
  from : Point;
  to : Point;
  style : Rgba;
  thickness : Q;
  cap : LineCap
}.

Record Surface : Type := mkSurface {
  bitmap : list Painted;          (* what is on the canvas, oldest first *)
  lineWidth : Q;
  lineCap : LineCap;
  strokeStyle : Rgba;
  pen : option Point;             (* end of the current sub-path *)
  path : list (Point * Point)     (* segments of the current path *)
}.

(** A canvas whose [width] or [height] was just assigned: blank, with the
    context back to its defaults. *)
Definition blank : Surface :=
  mkSurface [] 1 Butt (rgba 0 0 0 1) None [].

(** Does the rectangle cover a canvas of [w] by [h] pixels? *)
Definition covers (cx cy cw ch : Q) (w h : Z) : bool :=
  Qle_bool cx 0 && Qle_bool cy 0
  && Qle_bool (inject_Z w) (cx + cw) && Qle_bool (inject_Z h) (cy + ch).

(** One call on a canvas of [w] by [h] pixels.  A [clearRect] that does not
    cover the canvas is taken to erase nothing. *)
Definition exec (w h : Z) (sf : Surface) (c : Call) : Surface :=
  match c with
  | RequestAnimationFrame => sf
  | ClearRect cx cy cw ch =>
      if covers cx cy cw ch w h
      then mkSurface [] (lineWidth sf) (lineCap sf) (strokeStyle sf)
             (pen sf) (path sf)
      else sf
  | SetLineWidth v =>
      mkSurface (bitmap sf) v (lineCap sf) (strokeStyle sf) (pen sf) (path sf)
  | SetLineCap v =>
      mkSurface (bitmap sf) (lineWidth sf) v (strokeStyle sf) (pen sf) (path sf)
  | SetStrokeStyle v =>
      mkSurface (bitmap sf) (lineWidth sf) (lineCap sf) v (pen sf) (path sf)
  | BeginPath =>
      mkSurface (bitmap sf) (lineWidth sf) (lineCap sf) (strokeStyle sf)
        None []
  | MoveTo px py =>
      mkSurface (bitmap sf) (lineWidth sf) (lineCap sf) (strokeStyle sf)
        (Some (mkPoint px py)) (path sf)
  | LineTo px py =>
      let q := mkPoint px py in
      match pen sf with
      | Some p =>
          mkSurface (bitmap sf) (lineWidth sf) (lineCap sf) (strokeStyle sf)
            (Some q) (path sf ++ [(p, q)])
      | None =>
          mkSurface (bitmap sf) (lineWidth sf) (lineCap sf) (strokeStyle sf)
            (Some q) (path sf)
      end
  | Stroke =>
      let ink :=
        map (fun pq => mkPainted (fst pq) (snd pq) (strokeStyle sf)
                         (lineWidth sf) (lineCap sf)) (path sf) in
      mkSurface (bitmap sf ++ ink) (lineWidth sf) (lineCap sf)
        (strokeStyle sf) (pen sf) (path sf)
  end.

Definition paint (w h : Z) (sf : Surface) (cs : list Call) : Surface :=
  fold_left (exec w h) cs sf.

(** The [stroke()] calls among the calls made. *)
Definition strokeCalls (cs : list Call) : nat :=
  length (filter (fun c => match c with Stroke => true | _ => false end) cs).

(** The calls made on the 2D context: all but the frame request. *)
Definition contextCalls (cs : list Call) : list Call :=
  filter (fun c => match c with RequestAnimationFrame => false | _ => true end)
    cs.

(** ** The page as an event loop *)

Inductive Event : Type :=
| MouseMove (now : Q) (e : Point)
| Resized (innerWidth innerHeight : Z)
| Frame (now : Q).

(** The listener or callback that an event runs. *)
Definition dispatch (ev : Event) (s : Trail) : Result (Trail * list Call) :=
  match ev with
  | MouseMove now e => Ok (record now e s, [])
  | Resized w h => Ok (resize w h s, [])
  | Frame now => draw now s
  end.

Fixpoint run (evs : list Event) (s : Trail) : Result Trail :=
  match evs with
  | [] => Ok s
  | ev :: rest => r <- dispatch ev s ;; run rest (fst r)
  end.

(** [record] applied to each sample in turn. *)
Definition recordAll (samples : list (Q * Point)) (s : Trail) : Trail :=
  fold_left (fun st tp => record (fst tp) (snd tp) st) samples s.

(** The variables right after the declarations of the section, on a canvas
    of [w] by [h] pixels. *)
Definition initial (w h : Z) (t0 : Q) : Trail := mkTrail w h [] t0.

(** ** The fade, as specified *)

(** [clamp(v, lo, hi)] as the specification writes it. *)
Definition spec_clamp (v lo hi : Q) : Q := Qmax lo (Qmin v hi).

(** The fade progress as the specification writes it. *)
Definition spec_fadeProgress (idle : Q) : Q :=
  spec_clamp ((idle - trailIdleTimeout) / trailFadeDuration) 0 1.

(** ** Rendering a frame, in the words of the specification *)

(** The opacity of segment [i] of a buffer of [len] points, as the
    specification writes it. *)
Definition spec_alpha (len i : nat) (fp : Q) : Q :=
  (inject_Z (Z.of_nat i) / inject_Z (Z.of_nat len)) * (1 - fp).

(** The calls every frame starts with. *)
Definition frameStart (s : Trail) : list Call :=
  [ RequestAnimationFrame;
    ClearRect 0 0 (inject_Z (canvasWidth s)) (inject_Z (canvasHeight s)) ].

(** The calls that stroke the segment from [p1] to [p2] in colour [c]. *)
Definition segmentCalls (c : Rgba) (p1 p2 : Point) : list Call :=
  [ SetStrokeStyle c; BeginPath; MoveTo (x p1) (y p1); LineTo (x p2) (y p2);
    Stroke ].

(** The state after a fully faded trail was dropped. *)
Definition emptied (s : Trail) : Trail :=
  mkTrail (canvasWidth s) (canvasHeight s) [] (lastMove s).

(** The stroke that iteration [i] of the loop of [draw] is to paint, with
    line width [lw] and cap [lc]: the segment from [ps[i-1]] to [ps[i]]. *)
Definition inkAt (ps : list Point) (fp : Q) (lw : Q) (lc : LineCap) (i : nat)
  : option Painted :=
  match nth_error ps (i - 1), nth_error ps i with
  | Some p1, Some p2 =>
      Some (mkPainted p1 p2 (rgba 255 0 0 (spec_alpha (length ps) i fp))
              lw lc)
  | _, _ => None
  end.

(** ** Scenarios *)

(** A page that has the canvas, and one that does not. *)
Definition pageWithCanvas : Document :=
  [("hero"%string, mkCanvas 10 10); ("trailCanvas"%string, mkCanvas 300 150)].
Definition pageWithoutCanvas : Document :=
  [("hero"%string, mkCanvas 10 10)].

(** One point recorded at time 0 on a fresh page. *)
Definition onePoint : Trail :=
  record 0 (mkPoint 5 7) (initial 800 600 0).

(** Two points recorded 4 ms apart. *)
Definition twoPoints : Trail :=
  recordAll [(0, mkPoint 1 2); (4, mkPoint 11 2)] (initial 800 600 0).

(** Three points recorded within 10 ms. *)
Definition threePoints : Trail :=
  recordAll [(0, mkPoint 0 0); (5, mkPoint 10 0); (10, mkPoint 20 0)]
    (initial 800 600 0).

(** 35 samples, one per millisecond, the k-th at position (k, 0). *)
Definition sample (k : nat) : Q * Point :=
  (inject_Z (Z.of_nat k), mkPoint (inject_Z (Z.of_nat k)) 0).
Definition samples35 : list (Q * Point) := map sample (seq 0 35).

(** The last [n] elements of a list, in order. *)
Definition lastN {A : Type} (n : nat) (l : list A) : list A :=
  skipn (length l - n) l.

(** The [requestAnimationFrame] calls among the calls made. *)
Definition frameRequests (cs : list Call) : nat :=
  length
    (filter
       (fun c => match c with RequestAnimationFrame => true | _ => false end)
       cs).


(** ** The rest of the page

    Sections 1 to 8 of [assets/js/main.js]: the scroll reveals, the active
    navigation link, the card lightbox and the project filters.  The DOM is
    modelled as far as these functions read and write it; nodes of a
    [querySelectorAll] result are told apart by their position in it. *)

Module Dom.

(** [v || d] on a string that may be missing: [undefined], [null] and the
    empty string are falsy. *)
Definition orElse (v : option string) (d : string) : string :=
  match v with
  | Some s => if String.eqb s "" then d else s
  | None => d
  end.

(** [classList.contains], [classList.add] and [classList.remove]. *)
Definition contains (c : string) (cl : list string) : bool :=
  existsb (String.eqb c) cl.

Definition add (c : string) (cl : list string) : list string :=
  if contains c cl then cl else cl ++ [c].

Definition remove (c : string) (cl : list string) : list string :=
  filter (fun k => negb (String.eqb c k)) cl.

(** The values of [e.key] the handlers look at. *)
Inductive Key : Type :=
| ArrowRight | ArrowLeft | Enter | Space | Escape | OtherKey.

(** [array.forEach((el, index) => ...)] rewriting each element, from index
    [i] on. *)
Fixpoint forEachFrom {A B : Type} (f : nat -> A -> B) (i : nat) (l : list A)
  : list B :=
  match l with
  | [] => []
  | a :: rest => f i a :: forEachFrom f (S i) rest
  end.

(** [array[k]] for a number [k]: [undefined] outside the array. *)
Definition at_ {A : Type} (l : list A) (k : Z) : option A :=
  if (k <? 0)%Z then None else nth_error l (Z.to_nat k).

End Dom.

(** *** Section 6, project filtering *)

Module Filters.

Record Button : Type := mkButton {
  dataFilter : option string;      (* [btn.dataset.filter] *)
  ariaPressed : option string      (* the [aria-pressed] attribute *)
}.

Record Card : Type := mkCard {
  dataCategory : option string;    (* [card.dataset.category] *)
  display : string                 (* [card.style.display] *)
}.

(** [buttons], [cards] and the button last given the focus by the code. *)
Record State : Type := mkState {
  buttons : list Button;
  cards : list Card;
  focused : option nat
}.

(** [setActiveButton(activeBtn)], the button given by its index. *)
Definition setActiveButton (activeBtn : nat) (bs : list Button)
  : list Button :=
  Dom.forEachFrom
    (fun j btn =>
       let isActive := (j =? activeBtn)%nat in
       mkButton (dataFilter btn)
         (Some (if isActive then "true" else "false")%string))
    0%nat bs.

(** [applyFilter(filter)]; [toLowerCase] is the host's
    [String.prototype.toLowerCase]. *)
Definition applyFilter (toLowerCase : string -> string)
  (filter : option string) (cs : list Card) : list Card :=
  map
    (fun card =>
       let category := toLowerCase (Dom.orElse (dataCategory card) "all") in
       let target := toLowerCase (Dom.orElse filter "all") in
       let shouldShow :=
         String.eqb target "all" || String.eqb category target in
       mkCard (dataCategory card) (if shouldShow then "" else "none")%string)
    cs.

(** The [click] listener of the button at [index]; no listener, no effect. *)
Definition click (toLowerCase : string -> string) (index : nat) (st : State)
  : State :=
  match nth_error (buttons st) index with
  | None => st
  | Some btn =>
      let filter := Dom.orElse (dataFilter btn) "all" in
      mkState (setActiveButton index (buttons st))
        (applyFilter toLowerCase (Some filter) (cards st))
        (focused st)
  end.

(** [buttons[k].focus()]: raises when there is no such button. *)
Definition focusAt (k : Z) (st : State) : Result State :=
  match Dom.at_ (buttons st) k with
  | Some _ => Ok (mkState (buttons st) (cards st) (Some (Z.to_nat k)))
  | None => TypeError
  end.

(** The [keydown] listener of the button at [index].  The result says
    whether [e.preventDefault()] was called. *)
Definition keydown (toLowerCase : string -> string) (index : nat)
  (key : Dom.Key) (st : State) : Result (State * bool) :=
  match nth_error (buttons st) index with
  | None => Ok (st, false)
  | Some _ =>
      let len := Z.of_nat (length (buttons st)) in
      match key with
      | Dom.ArrowRight =>
          st' <- focusAt (Z.rem (Z.of_nat index + 1) len) st ;;
          Ok (st', true)
      | Dom.ArrowLeft =>
          st' <- focusAt (Z.rem (Z.of_nat index - 1 + len) len) st ;;
          Ok (st', true)
      | Dom.Enter | Dom.Space => Ok (click toLowerCase index st, true)
      | _ => Ok (st, false)
      end
  end.

(** [buttons.find(b => b.getAttribute('aria-pressed') === 'true')], with the
    index of the button found. *)
Fixpoint findPressed (i : nat) (bs : list Button) : option (nat * Button) :=
  match bs with
  | [] => None
  | b :: rest =>
      match ariaPressed b with
      | Some v => if String.eqb v "true" then Some (i, b)
                  else findPressed (S i) rest
      | None => findPressed (S i) rest
      end
  end.

(** [initProjectFilters()]: [filterBar] holds the buttons inside
    [.projects-filters] when the page has that element.  [None] is the
    early return, with nothing touched and no listener added. *)
Definition initProjectFilters (toLowerCase : string -> string)
  (filterBar : option (list Button)) (projectCards : list Card)
  : option State :=
  match filterBar with
  | None => None
  | Some bs =>
      let defaultBtn :=
        match findPressed 0 bs with
        | Some ib => Some ib
        | None => match bs with
                  | [] => None
                  | b :: _ => Some (0%nat, b)
                  end
        end in
      match defaultBtn with
      | Some (i, b) =>
          Some (mkState (setActiveButton i bs)
                  (applyFilter toLowerCase
                     (Some (Dom.orElse (dataFilter b) "all")) projectCards)
                  None)
      | None => Some (mkState bs projectCards None)
      end
  end.

(** Is the button shown as pressed? *)
Definition pressed (b : Button) : bool :=
  match ariaPressed b with
  | Some v => String.eqb v "true"
  | None => false
  end.

(** [toLowerCase] on the letters A to Z, which is what the host does to a
    string of ASCII characters. *)
Definition asciiLowerChar (c : Ascii.ascii) : Ascii.ascii :=
  let n := Ascii.nat_of_ascii c in
  if ((65 <=? n) && (n <=? 90))%nat then Ascii.ascii_of_nat (n + 32) else c.

Fixpoint asciiLower (s : string) : string :=
  match s with
  | EmptyString => EmptyString
  | String c rest => String (asciiLowerChar c) (asciiLower rest)
  end.

(** A filter bar of three buttons, none pressed, and four cards. *)
Definition demoButtons : list Button :=
  [ mkButton (Some "all"%string) None;
    mkButton (Some "Web"%string) (Some "false"%string);
    mkButton None None ].

Definition demoCards : list Card :=
  [ mkCard (Some "web"%string) ""%string;
    mkCard (Some "ART"%string) "none"%string;
    mkCard None ""%string;
    mkCard (Some ""%string) ""%string ].

End Filters.

(** *** Section 5, card lightbox *)

Module Lightbox.

(** The modal [div] and the [img] inside it. *)
Record Modal : Type := mkModal {
  classList : list string;
  imgSrc : string;
  imgAlt : string;
  focusCalls : nat                 (* how often [modal.focus()] ran *)
}.

(** A [.card]: the [src] and [alt] of its [.card-front img], if it has
    one, and [card.style.cursor]. *)
Record Card : Type := mkCard {
  frontImg : option (string * string);
  cursor : string
}.

Record State : Type := mkState { modal : Modal; cards : list Card }.

Definition openLightbox (src alt : string) (m : Modal) : Modal :=
  mkModal (Dom.remove "hidden" (classList m)) src
    (Dom.orElse (Some alt) "") (S (focusCalls m)).

Definition closeLightbox (m : Modal) : Modal :=
  mkModal (Dom.add "hidden" (classList m)) ""%string (imgAlt m)
    (focusCalls m).

(** [initCardLightbox()]: the modal is created hidden; the cards that have
    a front image get their listeners and the zoom cursor. *)
Definition initCardLightbox (cs : list Card) : State :=
  mkState
    (mkModal ["lightbox-modal"; "hidden"]%string ""%string ""%string 0)
    (map (fun card =>
            match frontImg card with
            | Some _ => mkCard (frontImg card) "zoom-in"%string
            | None => card
            end) cs).

Inductive Event : Type :=
| ClickCard (i : nat)                    (* a click on card [i] *)
| KeyCard (i : nat) (key : Dom.Key)      (* a key pressed on card [i] *)
| ClickModal (onOverlay : bool)          (* [e.target === modal]? *)
| KeyElsewhere (key : Dom.Key).          (* a key pressed anywhere else *)

(** The [keydown] listener of [window]. *)
Definition windowKeydown (key : Dom.Key) (m : Modal) : Modal :=
  match key with
  | Dom.Escape => closeLightbox m
  | _ => m
  end.

(** The [keydown] listener of a card with the front image [img]. *)
Definition cardKeydown (img : string * string) (key : Dom.Key) (m : Modal)
  : Modal :=
  match key with
  | Dom.Enter | Dom.Space => openLightbox (fst img) (snd img) m
  | _ => m
  end.

(** The listeners an event runs, the card's before the window's. *)
Definition handle (ev : Event) (st : State) : State :=
  match ev with
  | ClickCard i =>
      match nth_error (cards st) i with
      | Some (mkCard (Some img) _) =>
          mkState (openLightbox (fst img) (snd img) (modal st)) (cards st)
      | _ => st
      end
  | KeyCard i key =>
      let m :=
        match nth_error (cards st) i with
        | Some (mkCard (Some img) _) => cardKeydown img key (modal st)
        | _ => modal st
        end in
      mkState (windowKeydown key m) (cards st)
  | ClickModal onOverlay =>
      if onOverlay then mkState (closeLightbox (modal st)) (cards st) else st
  | KeyElsewhere key => mkState (windowKeydown key (modal st)) (cards st)
  end.

Definition handleAll (evs : list Event) (st : State) : State :=
  fold_left (fun s ev => handle ev s) evs st.

(** Is the modal hidden? *)
Definition isHidden (m : Modal) : bool := Dom.contains "hidden" (classList m).

(** What holds of the lightbox at any time: the modal keeps its own class;
    while hidden it holds no image; while shown it holds the image and the
    alternative text of one of the cards. *)
Definition consistent (st : State) : Prop :=
  In "lightbox-modal"%string (classList (modal st))
  /\ (isHidden (modal st) = true -> imgSrc (modal st) = ""%string)
  /\ (isHidden (modal st) = false ->
      exists i img c,
        nth_error (cards st) i = Some (mkCard (Some img) c)
        /\ imgSrc (modal st) = fst img
        /\ imgAlt (modal st) = snd img).

(** Three cards, the second without a front image. *)
Definition demoCards : list Card :=
  [ mkCard (Some ("a.jpg", "A")%string) ""%string;
    mkCard None ""%string;
    mkCard (Some ("c.jpg", "")%string) ""%string ].

End Lightbox.

(** *** Sections 1, 2 and 8, scroll reveals *)

Module Reveal.

(** An [IntersectionObserverEntry], its target a node number. *)
Record Entry : Type := mkEntry { isIntersecting : bool; target : nat }.

(** The class lists of the nodes and the targets of the two observers. *)
Record State : Type := mkState {
  classes : nat -> list string;
  singleObserver : list nat;
  staggerObserver : list nat
}.

(** [node.classList.add(c)] *)
Definition addClass (node : nat) (c : string) (cls : nat -> list string)
  : nat -> list string :=
  fun n => if (n =? node)%nat then Dom.add c (cls n) else cls n.

(** [observer.observe(node)] and [observer.unobserve(node)] *)
Definition observe (node : nat) (targets : list nat) : list nat :=
  if existsb (Nat.eqb node) targets then targets else targets ++ [node].

Definition unobserve (node : nat) (targets : list nat) : list nat :=
  filter (fun n => negb (n =? node)%nat) targets.

(** [revealOnScroll(entries, observer)], called by [singleObserver]. *)
Definition revealOnScroll (entries : list Entry) (st : State) : State :=
  fold_left
    (fun s entry =>
       if isIntersecting entry
       then mkState (addClass (target entry) "visible" (classes s))
              (unobserve (target entry) (singleObserver s))
              (staggerObserver s)
       else s)
    entries st.

(** [revealStaggered(entries, observer)], called by [staggerObserver]. *)
Definition revealStaggered (entries : list Entry) (st : State) : State :=
  fold_left
    (fun s entry =>
       if isIntersecting entry
       then mkState (addClass (target entry) "revealed" (classes s))
              (singleObserver s)
              (unobserve (target entry) (staggerObserver s))
       else s)
    entries st.

(** [initScrollAnimations()]: [animated] are the [.animate-on-scroll]
    nodes, [staggered] the [[data-reveal-stagger]] nodes. *)
Definition initScrollAnimations (prefersReducedMotion : bool)
  (animated staggered : list nat) (st : State) : State :=
  if prefersReducedMotion
  then
    let cls1 :=
      fold_left (fun cls el => addClass el "visible" cls) animated
        (classes st) in
    let cls2 :=
      fold_left (fun cls el => addClass el "revealed" cls) staggered cls1 in
    mkState cls2 (singleObserver st) (staggerObserver st)
  else
    mkState (classes st)
      (fold_left (fun obs el => observe el obs) animated (singleObserver st))
      (fold_left (fun obs el => observe el obs) staggered
         (staggerObserver st)).

(** [window.cleanupScrollObservers()] *)
Definition cleanupScrollObservers (st : State) : State :=
  mkState (classes st) [] [].

(** What happens after start-up: an observer reports or the page cleans
    up. *)
Inductive Event : Type :=
| SingleReports (entries : list Entry)
| StaggerReports (entries : list Entry)
| Cleanup.

Definition handle (ev : Event) (st : State) : State :=
  match ev with
  | SingleReports entries => revealOnScroll entries st
  | StaggerReports entries => revealStaggered entries st
  | Cleanup => cleanupScrollObservers st
  end.

Definition handleAll (evs : list Event) (st : State) : State :=
  fold_left (fun s ev => handle ev s) evs st.

(** A page on which no node has a class and nothing is observed. *)
Definition bare : State := mkState (fun _ => []) [] [].

End Reveal.

(** *** Section 4, active navigation link *)

Module ActiveNav.

(** A link of [.nav-links]. *)
Record Link : Type := mkLink {
  href : option string;            (* [getAttribute('href')] *)
  classList : list string;
  ariaCurrent : option string      (* the [aria-current] attribute *)
}.

(** An entry of the observer, with the [id] attribute of its target. *)
Record Entry : Type := mkEntry { isIntersecting : bool; targetId : string }.

(** The inner [navLinks.forEach] for the section [id]. *)
Definition highlight (id : string) (links : list Link) : list Link :=
  map
    (fun link =>
       match href link with
       | Some h =>
           if String.eqb h (String.append "#" id)
           then mkLink (href link) (Dom.add "active" (classList link))
                  (Some "true"%string)
           else mkLink (href link) (Dom.remove "active" (classList link))
                  None
       | None =>
           mkLink (href link) (Dom.remove "active" (classList link)) None
       end)
    links.

(** The callback of [navObserver]. *)
Definition navCallback (entries : list Entry) (links : list Link)
  : list Link :=
  fold_left
    (fun ls entry =>
       if isIntersecting entry then highlight (targetId entry) ls else ls)
    entries links.

(** The section whose link the callback leaves highlighted: that of the
    last intersecting entry. *)
Definition lastIntersecting (entries : list Entry) : option string :=
  fold_left
    (fun acc entry =>
       if isIntersecting entry then Some (targetId entry) else acc)
    entries None.

Definition isActive (link : Link) : bool :=
  Dom.contains "active" (classList link).

End ActiveNav.

(** * Properties *)

(** ** Comparisons *)

Module JSFacts.

Lemma gt_true (a b : Q) : gt a b = true <-> b < a.
Proof.
  unfold gt. rewrite negb_true_iff, <- not_true_iff_false, Qle_bool_iff.
  split; [apply Qnot_le_lt | apply Qlt_not_le].
Qed.

Lemma gt_false (a b : Q) : gt a b = false <-> a <= b.
Proof.
  unfold gt. rewrite negb_false_iff. apply Qle_bool_iff.
Qed.

Lemma ge_true (a b : Q) : ge a b = true <-> b <= a.
Proof. apply Qle_bool_iff. Qed.

Lemma ge_false (a b : Q) : ge a b = false <-> a < b.
Proof.
  unfold ge. rewrite <- not_true_iff_false, Qle_bool_iff.
  split; [apply Qnot_le_lt | apply Qlt_not_le].
Qed.

End JSFacts.

Import JSFacts.

(** ** The fade *)

Lemma fade_ratio (idle : Q) :
  (idle - trailIdleTimeout) / trailFadeDuration == (idle - 100) * (1 # 250).
Proof. unfold trailIdleTimeout, trailFadeDuration. field. Qed.

(** The three regimes of [fadeProgress]. *)
Lemma fadeProgress_cases (idle : Q) :
  (idle <= 100 /\ fadeProgress idle = 0)
  \/ (100 < idle /\ idle < 350
      /\ fadeProgress idle == (idle - 100) * (1 # 250))
  \/ (350 <= idle /\ fadeProgress idle == 1).
Proof.
  unfold fadeProgress.
  destruct (JS.gt idle trailIdleTimeout) eqn:G.
  - apply gt_true in G. unfold trailIdleTimeout in G.
    destruct (Q.min_spec ((idle - trailIdleTimeout) / trailFadeDuration) 1)
      as [[L E] | [L E]]; rewrite fade_ratio in L.
    + right; left. rewrite E, fade_ratio. repeat split; try assumption; lra.
    + right; right. split; [lra | exact E].
  - apply gt_false in G. unfold trailIdleTimeout in G. now left.
Qed.

Lemma fadeProgress_range (idle : Q) :
  0 <= fadeProgress idle /\ fadeProgress idle <= 1.
Proof.
  destruct (fadeProgress_cases idle) as [[_ E] | [(L & U & E) | [_ E]]];
    rewrite E; split; lra.
Qed.

Lemma fadeProgress_before (idle : Q) :
  idle <= trailIdleTimeout -> fadeProgress idle == 0.
Proof.
  unfold trailIdleTimeout.
  destruct (fadeProgress_cases idle) as [[B F] | [(B & U & F) | [B F]]];
    rewrite F; intros; lra.
Qed.

Lemma fadeProgress_after (idle : Q) :
  trailIdleTimeout + trailFadeDuration <= idle -> fadeProgress idle == 1.
Proof.
  unfold trailIdleTimeout, trailFadeDuration.
  destruct (fadeProgress_cases idle) as [[B F] | [(B & U & F) | [B F]]];
    rewrite F; intros; lra.
Qed.

Lemma fadeProgress_refines_spec (idle : Q) :
  fadeProgress idle == spec_fadeProgress idle.
Proof.
  unfold spec_fadeProgress, spec_clamp.
  destruct (Q.min_spec ((idle - trailIdleTimeout) / trailFadeDuration) 1)
    as [[L E] | [L E]];
  destruct (Q.max_spec 0
              (Qmin ((idle - trailIdleTimeout) / trailFadeDuration) 1))
    as [[L' E'] | [L' E']];
  rewrite E', ?E; rewrite E in L'; rewrite fade_ratio in *;
  destruct (fadeProgress_cases idle) as [[B F] | [(B & U & F) | [B F]]];
  rewrite F; lra.
Qed.

(** C5: the fade progress computed by [draw] is the clamp of
    [(idle - idleThreshold) / fadeDuration] to [0, 1]; it is 0 up to the idle
    threshold and 1 from [idleThreshold + fadeDuration] on. *)
Theorem fadeProgress_is_clamp (idle : Q) :
  fadeProgress idle
    == spec_clamp ((idle - trailIdleTimeout) / trailFadeDuration) 0 1
  /\ (idle <= trailIdleTimeout -> fadeProgress idle == 0)
  /\ (trailIdleTimeout + trailFadeDuration <= idle -> fadeProgress idle == 1).
Proof.
  split; [apply fadeProgress_refines_spec |].
  split; [apply fadeProgress_before | apply fadeProgress_after].
Qed.

Lemma fadeProgress_is_clamp_witness :
  fadeProgress 40 == 0 /\ fadeProgress 400 == 1.
Proof.
  split.
  - apply (proj1 (proj2 (fadeProgress_is_clamp 40))).
    unfold trailIdleTimeout. lra.
  - apply (proj2 (proj2 (fadeProgress_is_clamp 400))).
    unfold trailIdleTimeout, trailFadeDuration. lra.
Defined.

(** C6: for the fixed idle threshold and fade duration, the fade progress
    does not decrease when the idle time grows. *)
Theorem fadeProgress_monotone (idle1 idle2 : Q) :
  idle1 <= idle2 -> fadeProgress idle1 <= fadeProgress idle2.
Proof.
  intros H.
  destruct (fadeProgress_cases idle1) as [[B1 F1] | [(B1 & U1 & F1) | [B1 F1]]];
  destruct (fadeProgress_cases idle2) as [[B2 F2] | [(B2 & U2 & F2) | [B2 F2]]];
  rewrite F1, F2; lra.
Qed.

Lemma fadeProgress_monotone_witness :
  fadeProgress 150 <= fadeProgress 300.
Proof.
  apply (fadeProgress_monotone 150 300). lra.
Defined.

(** ** The trail buffer *)

Section Buffer.

Local Open Scope nat_scope.

Lemma lastN_length {A : Type} (n : nat) (l : list A) :
  length (lastN n l) = Nat.min n (length l).
Proof. unfold lastN. rewrite length_skipn. lia. Qed.

Lemma lastN_short {A : Type} (n : nat) (l : list A) :
  length l <= n -> lastN n l = l.
Proof.
  intros H. unfold lastN.
  replace (length l - n) with 0 by lia. apply skipn_0.
Qed.

Lemma lastN_suffix {A : Type} (n : nat) (l : list A) :
  firstn (length l - n) l ++ lastN n l = l.
Proof. apply firstn_skipn. Qed.

(** Appending to the last [n] and keeping the last [n] again is keeping
    the last [n] of the whole. *)
Lemma lastN_snoc {A : Type} (n : nat) (l : list A) (a : A) :
  1 <= n -> lastN n (lastN n l ++ [a]) = lastN n (l ++ [a]).
Proof.
  intros Hn.
  destruct (Nat.le_gt_cases (length l) n) as [Hs | Hl].
  - now rewrite (lastN_short n l Hs).
  - unfold lastN at 1 3.
    rewrite !length_app, lastN_length. cbn [length].
    replace (Nat.min n (length l) + 1 - n) with 1 by lia.
    unfold lastN. rewrite !skipn_app, skipn_skipn, length_skipn.
    replace (1 + (length l - n)) with (length l + 1 - n) by lia.
    replace (1 - (length l - (length l - n))) with 0 by lia.
    replace (length l + 1 - n - length l) with 0 by lia.
    reflexivity.
Qed.

Lemma record_points (now : Q) (e : Point) (s : Trail) :
  points (record now e s)
  = if maxTrail <? length (points s ++ [e])
    then tl (points s ++ [e]) else points s ++ [e].
Proof. destruct e. reflexivity. Qed.

Lemma record_lastN (now : Q) (e : Point) (s : Trail) :
  length (points s) <= maxTrail ->
  points (record now e s) = lastN maxTrail (points s ++ [e]).
Proof.
  intros H. rewrite record_points.
  destruct (Nat.ltb_spec maxTrail (length (points s ++ [e]))) as [L | L].
  - unfold lastN. rewrite length_app in *. cbn [length] in *.
    replace (length (points s) + 1 - maxTrail) with 1 by lia.
    reflexivity.
  - symmetry. now apply lastN_short.
Qed.

Lemma recordAll_snoc (samples : list (Q * Point)) (tp : Q * Point)
  (s : Trail) :
  recordAll (samples ++ [tp]) s
  = record (fst tp) (snd tp) (recordAll samples s).
Proof. unfold recordAll. now rewrite fold_left_app. Qed.

Lemma recordAll_points (samples : list (Q * Point)) (s : Trail) :
  length (points s) <= maxTrail ->
  points (recordAll samples s)
  = lastN maxTrail (points s ++ map snd samples).
Proof.
  intros H. induction samples as [| tp samples IH] using rev_ind.
  - cbn. rewrite app_nil_r. symmetry. now apply lastN_short.
  - rewrite recordAll_snoc, record_lastN.
    + rewrite IH, map_app, app_assoc. cbn [map].
      apply lastN_snoc. unfold maxTrail. lia.
    + rewrite IH, lastN_length. lia.
Qed.

(** The bound is kept by every listener and callback of the page. *)
Lemma dispatch_bounded (ev : Event) (s s' : Trail) (cs : list Call) :
  length (points s) <= maxTrail ->
  dispatch ev s = Ok (s', cs) ->
  length (points s') <= maxTrail.
Proof.
  intros H D. destruct ev as [now e | w h | now]; cbn in D.
  - injection D as <- _. rewrite record_lastN, lastN_length by exact H. lia.
  - injection D as <- _. exact H.
  - unfold draw in D.
    destruct (length (points s) <? 2); [injection D as <- _; exact H |].
    destruct (JS.ge _ 1); [injection D as <- _; cbn; lia |].
    destruct (drawLoop _ _ _); cbn in D; [| discriminate].
    injection D as <- _. exact H.
Qed.

Lemma run_bounded (evs : list Event) (s s' : Trail) :
  length (points s) <= maxTrail ->
  run evs s = Ok s' ->
  length (points s') <= maxTrail.
Proof.
  revert s. induction evs as [| ev evs IH]; intros s H R; cbn in R.
  - now injection R as <-.
  - destruct (dispatch ev s) as [[s1 cs] |] eqn:D; cbn in R; [| discriminate].
    apply (IH s1); [| exact R]. eapply dispatch_bounded; eauto.
Qed.

End Buffer.

(** C2: whatever is recorded, the buffer never holds more than [maxTrail]
    points; it holds the most recent [maxTrail] of the recorded points in
    their order, the older ones having been evicted oldest first.  After 35
    recorded points it holds the last 30 and the first 5 are gone. *)
Theorem buffer_bounded_fifo :
  (forall (w h : Z) (t0 : Q) (samples : list (Q * Point)),
      let s := recordAll samples (initial w h t0) in
      (length (points s) <= maxTrail)%nat
      /\ points s = lastN maxTrail (map snd samples)
      /\ ((maxTrail < length samples)%nat ->
          length (points s) = maxTrail
          /\ map snd samples
             = firstn (length samples - maxTrail) (map snd samples)
               ++ points s))
  /\ points (recordAll samples35 (initial 800 600 0))
     = map snd (skipn 5 samples35)
  /\ map snd samples35
     = map snd (firstn 5 samples35)
       ++ points (recordAll samples35 (initial 800 600 0)).
Proof.
  split; [| split; reflexivity].
  intros w h t0 samples s.
  assert (E : points s = lastN maxTrail (map snd samples)).
  { unfold s. rewrite recordAll_points by (cbn; lia). reflexivity. }
  split; [| split; [exact E |]].
  - rewrite E, lastN_length. lia.
  - intros L. rewrite E, lastN_length, length_map. split; [lia |].
    rewrite <- (length_map snd samples). symmetry. apply lastN_suffix.
Qed.

Lemma buffer_bounded_fifo_witness :
  length (points (recordAll samples35 (initial 800 600 0))) = maxTrail.
Proof.
  apply (proj2 (proj2 (proj1 buffer_bounded_fifo 800%Z 600%Z 0 samples35))).
  vm_compute. lia.
Defined.

(** ** Recording a pointer position *)

(** C9: [record] stores the current time in the activity clock and appends
    the given point at the end of the buffer, dropping the oldest point only
    when the buffer would exceed its bound; it cannot fail, makes no host
    call, hands nothing back but the updated variables and leaves the canvas
    size alone. *)
Theorem record_effect (now : Q) (e : Point) (s : Trail) :
  let s' := record now e s in
  lastMove s' = now
  /\ ((length (points s) < maxTrail)%nat -> points s' = points s ++ [e])
  /\ ((maxTrail <= length (points s))%nat ->
      exists oldest rest,
        points s = oldest :: rest /\ points s' = rest ++ [e])
  /\ last (points s') e = e
  /\ canvasWidth s' = canvasWidth s
  /\ canvasHeight s' = canvasHeight s
  /\ dispatch (MouseMove now e) s = Ok (s', []).
Proof.
  intros s'. split; [reflexivity |].
  assert (P := record_points now e s). fold s' in P.
  rewrite length_app in P. cbn [length] in P.
  repeat split.
  - intros L. rewrite P.
    destruct (Nat.ltb_spec maxTrail (length (points s) + 1));
      [lia | reflexivity].
  - intros L. rewrite P.
    destruct (Nat.ltb_spec maxTrail (length (points s) + 1)); [| lia].
    destruct (points s) as [| oldest rest] eqn:E;
      [cbn in L; unfold maxTrail in L; lia |].
    exists oldest, rest. split; reflexivity.
  - rewrite P.
    destruct (Nat.ltb_spec maxTrail (length (points s) + 1)) as [L | L].
    + destruct (points s) as [| oldest rest] eqn:E;
        [cbn in L; unfold maxTrail in L; lia |].
      cbn [app tl]. apply last_last.
    + apply last_last.
Qed.

Lemma record_effect_witness :
  points (record 1 (mkPoint 3 4) (initial 800 600 0)) = [mkPoint 3 4]
  /\ exists oldest rest,
       points (recordAll samples35 (initial 800 600 0)) = oldest :: rest
       /\ points (record 36 (mkPoint 3 4)
                    (recordAll samples35 (initial 800 600 0)))
          = rest ++ [mkPoint 3 4].
Proof.
  split.
  - apply (proj1 (proj2 (record_effect 1 (mkPoint 3 4) (initial 800 600 0)))).
    vm_compute. lia.
  - apply (proj1 (proj2 (proj2
        (record_effect 36 (mkPoint 3 4)
           (recordAll samples35 (initial 800 600 0)))))).
    vm_compute. lia.
Defined.

(** ** Rendering a frame *)

Section Segments.

Variable ps : list Point.
Variable fp : Q.

Local Open Scope nat_scope.

Lemma pointAt_nth_error (i : nat) (p : Point) :
  nth_error ps i = Some p -> pointAt ps i = Ok p.
Proof. unfold pointAt. now intros ->. Qed.

Lemma drawSegment_ok (i : nat) (p1 p2 : Point) :
  nth_error ps (i - 1) = Some p1 ->
  nth_error ps i = Some p2 ->
  drawSegment ps fp i
  = Ok (segmentCalls (rgba 255 0 0 (spec_alpha (length ps) i fp)) p1 p2).
Proof.
  intros H1 H2. unfold drawSegment.
  rewrite (pointAt_nth_error _ _ H1), (pointAt_nth_error _ _ H2).
  reflexivity.
Qed.

Lemma in_range_lookup (i : nat) :
  1 <= i < length ps ->
  exists p1 p2, nth_error ps (i - 1) = Some p1 /\ nth_error ps i = Some p2.
Proof.
  intros [L U].
  destruct (nth_error ps (i - 1)) as [p1 |] eqn:E1;
    [| apply nth_error_None in E1; lia].
  destruct (nth_error ps i) as [p2 |] eqn:E2;
    [| apply nth_error_None in E2; lia].
  now exists p1, p2.
Qed.

Lemma loopIndices_range (i : nat) :
  In i (loopIndices ps) <-> 1 <= i < length ps.
Proof. unfold loopIndices. rewrite in_seq. lia. Qed.

(** What one iteration leaves on the canvas. *)
Lemma paint_segment (w h : Z) (sf : Surface) (c : Rgba) (p1 p2 : Point) :
  paint w h sf (segmentCalls c p1 p2)
  = mkSurface
      (bitmap sf ++ [mkPainted p1 p2 c (lineWidth sf) (lineCap sf)])
      (lineWidth sf) (lineCap sf) c (Some p2) [(p1, p2)].
Proof. destruct p1, p2. reflexivity. Qed.

(** The loop never raises on indices inside the buffer; it strokes once
    per index and paints the segments in index order. *)
Lemma drawLoop_ok (idxs : list nat) :
  (forall i, In i idxs -> 1 <= i < length ps) ->
  exists cs,
    drawLoop ps fp idxs = Ok cs
    /\ strokeCalls cs = length idxs
    /\ contextCalls cs = cs
    /\ forall w h sf,
         map Some (bitmap (paint w h sf cs))
         = map Some (bitmap sf)
           ++ map (inkAt ps fp (lineWidth sf) (lineCap sf)) idxs
         /\ lineWidth (paint w h sf cs) = lineWidth sf
         /\ lineCap (paint w h sf cs) = lineCap sf.
Proof.
  induction idxs as [| i rest IH]; intros R.
  - exists []. cbn. repeat split; try reflexivity. now rewrite app_nil_r.
  - destruct (in_range_lookup i (R i (or_introl eq_refl)))
      as (p1 & p2 & E1 & E2).
    destruct IH as (more & D & S & C & P);
      [intros j Hj; apply R; now right |].
    exists (segmentCalls (rgba 255 0 0 (spec_alpha (length ps) i fp)) p1 p2
            ++ more).
    cbn [drawLoop]. rewrite (drawSegment_ok i p1 p2 E1 E2), D.
    split; [reflexivity |]. split; [| split].
    + cbn. unfold strokeCalls in S. now rewrite S.
    + unfold contextCalls in C |- *.
      cbn [segmentCalls app filter]. now rewrite C.
    + intros w h sf. unfold paint. rewrite fold_left_app.
      fold (paint w h sf
              (segmentCalls (rgba 255 0 0 (spec_alpha (length ps) i fp))
                 p1 p2)).
      rewrite paint_segment.
      match goal with
      | |- context [fold_left (exec w h) more ?sf1] =>
          destruct (P w h sf1) as (B & LW & LC)
      end.
      unfold paint in B, LW, LC. rewrite B, LW, LC. cbn.
      unfold inkAt at 2. rewrite E1, E2.
      rewrite map_app, <- app_assoc. repeat split.
Qed.

End Segments.

Section Frame.

Variable now : Q.
Variable s : Trail.

Local Open Scope nat_scope.

Lemma covers_whole (w h : Z) :
  covers 0 0 (inject_Z w) (inject_Z h) w h = true.
Proof.
  unfold covers. rewrite !andb_true_iff, !Qle_bool_iff.
  repeat split; lra.
Qed.

(** The start of a frame wipes the canvas and touches nothing else of the
    context. *)
Lemma paint_frameStart (sf : Surface) :
  paint (canvasWidth s) (canvasHeight s) sf (frameStart s)
  = mkSurface [] (lineWidth sf) (lineCap sf) (strokeStyle sf) (pen sf)
      (path sf).
Proof.
  unfold paint, frameStart. cbn [fold_left exec].
  now rewrite covers_whole.
Qed.

Lemma draw_few :
  length (points s) < 2 -> draw now s = Ok (s, frameStart s).
Proof.
  intros L. unfold draw.
  destruct (Nat.ltb_spec (length (points s)) 2); [reflexivity | lia].
Qed.

Lemma draw_faded :
  2 <= length (points s) -> (1 <= fadeProgress (now - lastMove s))%Q ->
  draw now s = Ok (emptied s, frameStart s).
Proof.
  intros L F. unfold draw.
  destruct (Nat.ltb_spec (length (points s)) 2); [lia |].
  apply ge_true in F. now rewrite F.
Qed.

Lemma draw_visible :
  2 <= length (points s) -> (fadeProgress (now - lastMove s) < 1)%Q ->
  exists strokes,
    draw now s
    = Ok (s, frameStart s ++ [SetLineWidth 8; SetLineCap Round] ++ strokes)
    /\ strokeCalls strokes = length (points s) - 1
    /\ contextCalls strokes = strokes
    /\ forall sf,
         map Some
           (bitmap
              (paint (canvasWidth s) (canvasHeight s) sf
                 (frameStart s ++ [SetLineWidth 8; SetLineCap Round]
                  ++ strokes)))
         = map (inkAt (points s) (fadeProgress (now - lastMove s)) 8 Round)
             (loopIndices (points s)).
Proof.
  intros L F.
  destruct (drawLoop_ok (points s) (fadeProgress (now - lastMove s))
              (loopIndices (points s)))
    as (strokes & D & S & C & P).
  { intros i. apply loopIndices_range. }
  exists strokes. split; [| split; [| split]].
  - unfold draw.
    destruct (Nat.ltb_spec (length (points s)) 2); [lia |].
    apply ge_false in F. now rewrite F, D.
  - rewrite S. unfold loopIndices. apply length_seq.
  - exact C.
  - intros sf. unfold paint. rewrite !fold_left_app.
    fold (paint (canvasWidth s) (canvasHeight s) sf (frameStart s)).
    rewrite paint_frameStart.
    cbn [fold_left exec bitmap lineWidth lineCap strokeStyle pen path].
    match goal with
    | |- context [fold_left _ strokes ?sf1] =>
        destruct (P (canvasWidth s) (canvasHeight s) sf1) as (B & _)
    end.
    unfold paint in B. rewrite B. reflexivity.
Qed.

(** Every frame ends in one of three ways, and never raises. *)
Lemma draw_cases :
  (length (points s) < 2 /\ draw now s = Ok (s, frameStart s))
  \/ (2 <= length (points s) /\ (1 <= fadeProgress (now - lastMove s))%Q
      /\ draw now s = Ok (emptied s, frameStart s))
  \/ (2 <= length (points s) /\ (fadeProgress (now - lastMove s) < 1)%Q
      /\ exists strokes,
           draw now s
           = Ok (s, frameStart s ++ [SetLineWidth 8; SetLineCap Round]
                    ++ strokes)).
Proof.
  destruct (Nat.lt_ge_cases (length (points s)) 2) as [L | L].
  - left. split; [exact L | now apply draw_few].
  - right. destruct (Qlt_le_dec (fadeProgress (now - lastMove s)) 1) as [F | F].
    + right. destruct (draw_visible L F) as (strokes & D & _).
      repeat split; try assumption. now exists strokes.
    + left. repeat split; try assumption. now apply draw_faded.
Qed.

(** The calls of a frame on two fresh points, and of one in mid-fade. *)
Example draw_twoPoints_fresh :
  draw 20 twoPoints
  = Ok (twoPoints,
        [ RequestAnimationFrame;
          ClearRect 0 0 (inject_Z 800) (inject_Z 600);
          SetLineWidth 8; SetLineCap Round;
          SetStrokeStyle (rgba 255 0 0 (1 # 2));
          BeginPath; MoveTo 1 2; LineTo 11 2; Stroke ]).
Proof. reflexivity. Qed.

Example draw_twoPoints_midfade :
  fadeProgress (229 - lastMove twoPoints) == 1 # 2
  /\ exists a,
       a == 1 # 4
       /\ draw 229 twoPoints
          = Ok (twoPoints,
                [ RequestAnimationFrame;
                  ClearRect 0 0 (inject_Z 800) (inject_Z 600);
                  SetLineWidth 8; SetLineCap Round;
                  SetStrokeStyle (rgba 255 0 0 a);
                  BeginPath; MoveTo 1 2; LineTo 11 2; Stroke ]).
Proof.
  split; [reflexivity |].
  eexists. split; [| reflexivity]. reflexivity.
Qed.

Example draw_twoPoints_faded :
  draw 354 twoPoints = Ok (emptied twoPoints, frameStart twoPoints)
  /\ draw 354 (emptied twoPoints)
     = Ok (emptied twoPoints, frameStart twoPoints).
Proof. split; reflexivity. Qed.

(** A frame always completes. *)
Lemma draw_total : exists s' cs, draw now s = Ok (s', cs).
Proof.
  destruct draw_cases as [[_ D] | [(_ & _ & D) | (_ & _ & strokes & D)]];
    rewrite D; eauto.
Qed.

End Frame.

Lemma map_Some_inj {A : Type} (l l' : list A) :
  map Some l = map Some l' -> l = l'.
Proof.
  revert l'. induction l as [| a l IH]; intros [| b l'] E; cbn in E;
    try discriminate; [reflexivity |].
  injection E as -> E. f_equal. now apply IH.
Qed.

(** Frames alone never change a buffer of fewer than two points. *)
Lemma frames_keep_short_buffer (nows : list Q) (s : Trail) :
  (length (points s) < 2)%nat -> run (map Frame nows) s = Ok s.
Proof.
  intros L. induction nows as [| now nows IH]; [reflexivity |].
  cbn [map run dispatch]. rewrite (draw_few now s L). exact IH.
Qed.

(** C7, amended: a frame first asks for the next frame and then clears the
    whole canvas, which is the first thing it does to the drawing context
    and comes before the buffer or the clock is looked at, so what is on
    the canvas afterwards does not depend on what was there before; with
    fewer than two points in the buffer it does nothing more. *)
Theorem draw_clears_first (now : Q) (s : Trail) :
  let W := canvasWidth s in
  let H := canvasHeight s in
  let clear := ClearRect 0 0 (inject_Z W) (inject_Z H) in
  exists s' rest,
    draw now s = Ok (s', RequestAnimationFrame :: clear :: rest)
    /\ contextCalls (RequestAnimationFrame :: clear :: rest) = clear :: rest
    /\ (forall sf, bitmap (exec W H sf clear) = [])
    /\ (forall sf sf',
          bitmap (paint W H sf (RequestAnimationFrame :: clear :: rest))
          = bitmap (paint W H sf' (RequestAnimationFrame :: clear :: rest)))
    /\ ((length (points s) < 2)%nat ->
        s' = s /\ rest = []
        /\ forall sf,
             bitmap (paint W H sf (RequestAnimationFrame :: clear :: rest))
             = []).
Proof.
  intros W H clear.
  assert (K : forall sf, bitmap (exec W H sf clear) = []).
  { intros sf. cbn. now rewrite covers_whole. }
  assert (B : forall sf, bitmap (paint W H sf (frameStart s)) = []).
  { intros sf. unfold W, H. now rewrite paint_frameStart. }
  destruct (draw_cases now s)
    as [[L D] | [(L & F & D) | (L & F & strokes & D)]].
  - exists s, []. repeat split; try assumption.
    intros sf sf'. fold (frameStart s). now rewrite !B.
  - exists (emptied s), []. repeat split; try assumption; try lia.
    intros sf sf'. fold (frameStart s). now rewrite !B.
  - destruct (draw_visible now s L F) as (strokes' & D' & _ & C & P).
    rewrite D in D'. injection D' as <-.
    exists s, ([SetLineWidth 8; SetLineCap Round] ++ strokes).
    repeat split; try assumption; try lia.
    + unfold contextCalls in C |- *. cbn [filter app]. now rewrite C.
    + intros sf sf'. apply map_Some_inj.
      change (RequestAnimationFrame :: clear
              :: [SetLineWidth 8; SetLineCap Round] ++ strokes)
        with (frameStart s ++ [SetLineWidth 8; SetLineCap Round] ++ strokes).
      unfold W, H. now rewrite !P.
Qed.

Lemma draw_clears_first_witness :
  draw 351 onePoint
  = Ok (onePoint,
        [RequestAnimationFrame; ClearRect 0 0 (inject_Z 800) (inject_Z 600)]).
Proof.
  destruct (draw_clears_first 351 onePoint) as (s' & rest & D & _ & _ & _ & K).
  destruct K as (-> & -> & _); [vm_compute; lia |].
  exact D.
Defined.

(** The clear is not the first call of a frame: the request for the next
    frame comes before it. *)
Lemma frame_request_precedes_clear :
  (exists s' cs,
      draw 351 onePoint = Ok (s', cs)
      /\ hd_error cs = Some RequestAnimationFrame
      /\ hd_error cs <> Some (ClearRect 0 0 (inject_Z 800) (inject_Z 600)))
  /\ ~ (forall now s,
          exists s' rest,
            draw now s
            = Ok (s',
                  ClearRect 0 0 (inject_Z (canvasWidth s))
                    (inject_Z (canvasHeight s)) :: rest)).
Proof.
  split.
  - eexists _, _. split; [reflexivity |]. split; [reflexivity | discriminate].
  - intros C. destruct (C 351 onePoint) as (s' & rest & D).
    vm_compute in D. discriminate D.
Qed.

(** C10: a frame never changes the activity clock; it changes the buffer
    only when it holds at least two points and the fade is complete, and
    then empties it; with fewer than two points it returns before the fade
    check and changes nothing, so a buffer of exactly one point survives any
    number of frames, however late they come. *)
Theorem draw_frame_effect (now : Q) (s : Trail) :
  exists s' cs,
    draw now s = Ok (s', cs)
    /\ lastMove s' = lastMove s
    /\ (points s' = points s
        \/ ((2 <= length (points s))%nat
            /\ 1 <= fadeProgress (now - lastMove s)
            /\ points s' = []))
    /\ ((2 <= length (points s))%nat ->
        1 <= fadeProgress (now - lastMove s) -> points s' = [])
    /\ ((length (points s) < 2)%nat -> s' = s)
    /\ (forall p nows, points s = [p] -> run (map Frame nows) s = Ok s).
Proof.
  assert (R : forall p nows, points s = [p] -> run (map Frame nows) s = Ok s).
  { intros p nows E. apply frames_keep_short_buffer. rewrite E. cbn. lia. }
  destruct (draw_cases now s)
    as [[L D] | [(L & F & D) | (L & F & strokes & D)]].
  - exists s, (frameStart s). repeat split; try assumption; try lia.
    now left.
  - exists (emptied s), (frameStart s).
    repeat split; try assumption; try lia.
    now right.
  - eexists s, _. repeat split; try exact D; try assumption; try lia.
    + now left.
    + intros _ F'. exfalso. apply (Qlt_not_le _ _ F F').
Qed.

Lemma draw_frame_effect_witness :
  run (map Frame [351; 1000; 100000]) onePoint = Ok onePoint
  /\ draw 351 onePoint = Ok (onePoint, frameStart onePoint)
  /\ exists s' cs, draw 400 threePoints = Ok (s', cs) /\ points s' = [].
Proof.
  destruct (draw_frame_effect 351 onePoint)
    as (s1 & cs1 & D1 & _ & _ & _ & K1 & R1).
  destruct (draw_frame_effect 400 threePoints)
    as (s3 & cs3 & D3 & _ & _ & E3 & _ & _).
  split; [| split].
  - apply (R1 (mkPoint 5 7)). reflexivity.
  - rewrite K1 in D1 by (vm_compute; lia).
    rewrite D1. vm_compute in D1. injection D1 as <-. reflexivity.
  - exists s3, cs3. split; [exact D3 |].
    apply E3; [vm_compute; lia | vm_compute; discriminate].
Defined.

(** ** A fully faded trail *)

(** A single recorded point is still in the buffer after a frame that comes
    [idleThreshold + fadeDuration + 1] ms later: the buffer is not emptied
    at every frame whose idle time has passed the fade window. *)
Lemma one_point_survives_full_fade :
  trailIdleTimeout + trailFadeDuration <= 351 - lastMove onePoint
  /\ draw 351 onePoint = Ok (onePoint, frameStart onePoint)
  /\ points onePoint = [mkPoint 5 7]
  /\ ~ (forall now s,
          trailIdleTimeout + trailFadeDuration <= now - lastMove s ->
          exists s' cs, draw now s = Ok (s', cs) /\ points s' = []).
Proof.
  assert (I : trailIdleTimeout + trailFadeDuration <= 351 - lastMove onePoint).
  { vm_compute. discriminate. }
  repeat split; try reflexivity; try exact I.
  intros C. destruct (C 351 onePoint I) as (s' & cs & D & E).
  vm_compute in D. injection D as <- _. discriminate E.
Qed.

(** C1, amended: at a frame whose idle time is at least
    [idleThreshold + fadeDuration] the fade progress is 1 and nothing is
    drawn; the buffer is emptied when it holds at least two points and is
    left as it is when it holds fewer.  One point recorded on a fresh page
    is still there after the frame that comes 351 ms later, and no stroke
    is made. *)
Theorem full_fade_stops_drawing :
  (forall now s,
      trailIdleTimeout + trailFadeDuration <= now - lastMove s ->
      fadeProgress (now - lastMove s) == 1
      /\ exists s',
           draw now s = Ok (s', frameStart s)
           /\ strokeCalls (frameStart s) = 0%nat
           /\ (forall sf,
                 bitmap (paint (canvasWidth s) (canvasHeight s) sf
                           (frameStart s)) = [])
           /\ ((2 <= length (points s))%nat -> s' = emptied s)
           /\ ((length (points s) < 2)%nat -> s' = s))
  /\ draw 351 onePoint = Ok (onePoint, frameStart onePoint)
  /\ points onePoint = [mkPoint 5 7].
Proof.
  split; [| split; reflexivity].
  intros now s I.
  assert (F : fadeProgress (now - lastMove s) == 1)
    by now apply fadeProgress_after.
  split; [exact F |].
  assert (B : forall sf,
             bitmap (paint (canvasWidth s) (canvasHeight s) sf (frameStart s))
             = []).
  { intros sf. now rewrite paint_frameStart. }
  destruct (Nat.lt_ge_cases (length (points s)) 2) as [L | L].
  - exists s. rewrite (draw_few now s L).
    repeat split; try assumption; try lia.
  - exists (emptied s). rewrite (draw_faded now s L) by (rewrite F; lra).
    repeat split; try assumption; try lia.
Qed.

Lemma full_fade_stops_drawing_witness :
  (exists s',
      draw 400 threePoints = Ok (s', frameStart threePoints)
      /\ s' = emptied threePoints)
  /\ exists s',
       draw 351 onePoint = Ok (s', frameStart onePoint) /\ s' = onePoint.
Proof.
  split.
  - destruct (proj1 full_fade_stops_drawing 400 threePoints)
      as (_ & s' & D & _ & _ & E & _).
    + vm_compute. discriminate.
    + exists s'. split; [exact D |]. apply E. vm_compute. lia.
  - destruct (proj1 full_fade_stops_drawing 351 onePoint)
      as (_ & s' & D & _ & _ & _ & E).
    + vm_compute. discriminate.
    + exists s'. split; [exact D |]. apply E. vm_compute. lia.
Defined.

(** ** The opacity of the segments *)

Lemma spec_alpha_range (len i : nat) (fp : Q) :
  (1 <= i < len)%nat -> 0 <= fp /\ fp <= 1 ->
  0 <= spec_alpha len i fp /\ spec_alpha len i fp <= 1.
Proof.
  intros R [F0 F1]. unfold spec_alpha.
  assert (P : 0 < inject_Z (Z.of_nat len)).
  { change 0 with (inject_Z 0). rewrite <- Zlt_Qlt. lia. }
  assert (B0 : 0 <= inject_Z (Z.of_nat i) / inject_Z (Z.of_nat len)).
  { apply Qle_shift_div_l; [exact P |].
    rewrite Qmult_0_l. change 0 with (inject_Z 0). rewrite <- Zle_Qle. lia. }
  assert (B1 : inject_Z (Z.of_nat i) / inject_Z (Z.of_nat len) <= 1).
  { apply Qle_shift_div_r; [exact P |].
    rewrite Qmult_1_l, <- Zle_Qle. lia. }
  split; nra.
Qed.

(** C4: a frame that draws, the buffer holding at least two points and the
    fade being incomplete, strokes one segment for each consecutive pair
    [(p[i-1], p[i])], [i] from 1 to [length - 1], in index order, with
    opacity [(i / length) * (1 - fadeProgress)], which lies in [0, 1].
    Three points recorded within 10 ms and drawn at once give a fade
    progress of 0 and two segments, of opacity 1/3 and 2/3. *)
Theorem segment_opacity :
  (forall now s,
      (2 <= length (points s))%nat ->
      fadeProgress (now - lastMove s) < 1 ->
      let fp := fadeProgress (now - lastMove s) in
      let len := length (points s) in
      exists cs,
        draw now s = Ok (s, cs)
        /\ strokeCalls cs = (len - 1)%nat
        /\ forall sf,
             let ink :=
               bitmap (paint (canvasWidth s) (canvasHeight s) sf cs) in
             length ink = (len - 1)%nat
             /\ forall i, (1 <= i < len)%nat ->
                  exists p1 p2,
                    nth_error (points s) (i - 1) = Some p1
                    /\ nth_error (points s) i = Some p2
                    /\ nth_error ink (i - 1)
                       = Some (mkPainted p1 p2
                                 (rgba 255 0 0 (spec_alpha len i fp))
                                 8 Round)
                    /\ 0 <= spec_alpha len i fp <= 1)
  /\ fadeProgress (10 - lastMove threePoints) = 0
  /\ exists cs,
       draw 10 threePoints = Ok (threePoints, cs)
       /\ bitmap (paint 800 600 blank cs)
          = [ mkPainted (mkPoint 0 0) (mkPoint 10 0) (rgba 255 0 0 (1 # 3))
                8 Round;
              mkPainted (mkPoint 10 0) (mkPoint 20 0) (rgba 255 0 0 (2 # 3))
                8 Round ].
Proof.
  split; [| split; [reflexivity | eexists; split; reflexivity]].
  intros now s L F fp len.
  destruct (draw_visible now s L F) as (strokes & D & S & _ & P).
  eexists. split; [exact D |]. split.
  - unfold strokeCalls in S |- *. cbn [filter app frameStart]. exact S.
  - intros sf ink. specialize (P sf). fold ink fp in P.
    assert (N : length ink = (len - 1)%nat).
    { rewrite <- (length_map Some), P, length_map.
      unfold loopIndices. apply length_seq. }
    split; [exact N |].
    intros i R.
    destruct (in_range_lookup (points s) i R) as (p1 & p2 & E1 & E2).
    exists p1, p2. repeat split; try assumption.
    + assert (Q : nth_error (map Some ink) (i - 1)
                  = Some (inkAt (points s) fp 8 Round i)).
      { rewrite P, nth_error_map. unfold loopIndices.
        rewrite (nth_error_nth' _ 0%nat) by (rewrite length_seq; fold len; lia).
        rewrite seq_nth by (fold len; lia).
        cbn [option_map]. do 2 f_equal. lia. }
      rewrite nth_error_map in Q. unfold inkAt in Q. rewrite E1, E2 in Q.
      destruct (nth_error ink (i - 1)); cbn in Q; [| discriminate].
      injection Q as ->. reflexivity.
    + apply spec_alpha_range; [exact R | apply fadeProgress_range].
    + apply spec_alpha_range; [exact R | apply fadeProgress_range].
Qed.

Lemma segment_opacity_witness :
  exists cs,
    draw 235 threePoints = Ok (threePoints, cs)
    /\ strokeCalls cs = 2%nat
    /\ nth_error (bitmap (paint 800 600 blank cs)) 1
       = Some (mkPainted (mkPoint 10 0) (mkPoint 20 0)
                 (rgba 255 0 0
                    (spec_alpha 3 2
                       (fadeProgress (235 - lastMove threePoints))))
                 8 Round).
Proof.
  destruct (proj1 segment_opacity 235 threePoints) as (cs & D & S & P).
  - vm_compute. lia.
  - vm_compute. reflexivity.
  - exists cs. split; [exact D |]. split; [exact S |].
    destruct (P blank) as (_ & I).
    destruct (I 2%nat) as (p1 & p2 & E1 & E2 & E3 & _); [vm_compute; lia |].
    cbn in E1, E2. injection E1 as <-. injection E2 as <-.
    exact E3.
Defined.

(** ** Resizing the viewport *)

(** A frame after a resize is the frame without the resize, but for the
    size of the rectangle it clears. *)
Lemma draw_resize (now : Q) (w h : Z) (s : Trail) :
  draw now (resize w h s)
  = r <- draw now s ;;
    Ok (resize w h (fst r), frameStart (resize w h s) ++ skipn 2 (snd r)).
Proof.
  unfold draw. cbn [resize points lastMove canvasWidth canvasHeight].
  destruct (length (points s) <? 2)%nat; [reflexivity |].
  destruct (JS.ge (fadeProgress (now - lastMove s)) 1); [reflexivity |].
  destruct (drawLoop (points s) (fadeProgress (now - lastMove s))
              (loopIndices (points s))); reflexivity.
Qed.

(** What a frame leaves on the canvas, whatever was there before. *)
Lemma frame_bitmap (now : Q) (s s' : Trail) (cs : list Call) (sf : Surface) :
  draw now s = Ok (s', cs) ->
  map Some (bitmap (paint (canvasWidth s) (canvasHeight s) sf cs))
  = if (length (points s) <? 2)%nat
       || JS.ge (fadeProgress (now - lastMove s)) 1
    then []
    else map (inkAt (points s) (fadeProgress (now - lastMove s)) 8 Round)
           (loopIndices (points s)).
Proof.
  intros D.
  destruct (draw_cases now s) as [[L E] | [(L & F & E) | (L & F & _)]].
  - rewrite E in D. injection D as <- <-. rewrite paint_frameStart.
    apply Nat.ltb_lt in L. now rewrite L.
  - rewrite E in D. injection D as <- <-. rewrite paint_frameStart.
    apply ge_true in F. rewrite F. now rewrite orb_true_r.
  - destruct (draw_visible now s L F) as (strokes & E & _ & _ & P).
    rewrite E in D. injection D as <- <-. rewrite P.
    apply Nat.ltb_ge in L. apply ge_false in F. now rewrite L, F.
Qed.

(** C8: the resize handler makes the canvas as large as the viewport and
    changes neither the buffer nor the activity clock; the frame that
    follows works on the same buffer and paints what it would have painted
    without the resize. *)
Theorem resize_effect (w h : Z) (s : Trail) :
  let s' := resize w h s in
  canvasWidth s' = w
  /\ canvasHeight s' = h
  /\ points s' = points s
  /\ lastMove s' = lastMove s
  /\ dispatch (Resized w h) s = Ok (s', [])
  /\ forall now,
       exists t cs t' cs',
         draw now s = Ok (t, cs)
         /\ draw now s' = Ok (t', cs')
         /\ points t' = points t
         /\ lastMove t' = lastMove t
         /\ skipn 2 cs' = skipn 2 cs
         /\ forall sf,
              bitmap (paint w h blank cs')
              = bitmap (paint (canvasWidth s) (canvasHeight s) sf cs).
Proof.
  intros s'. repeat split.
  intros now.
  destruct (draw_total now s) as (t & cs & D).
  assert (D' := draw_resize now w h s). rewrite D in D'.
  cbn [JS.bind fst snd] in D'. fold s' in D'.
  exists t, cs, (resize w h t), (frameStart s' ++ skipn 2 cs).
  repeat split; try assumption.
  intros sf. apply map_Some_inj.
  rewrite (frame_bitmap now s t cs sf D).
  apply (frame_bitmap now s' _ _ blank D').
Qed.

(** ** Start-up *)

Lemma init_absent (doc : Document) (w h : Z) (t0 t1 : Q) :
  getElementById doc "trailCanvas"%string = None ->
  init doc w h t0 t1 = TypeError.
Proof. intros E. unfold init. now rewrite E. Qed.

Lemma init_present (doc : Document) (el : CanvasElement) (w h : Z)
  (t0 t1 : Q) :
  getElementById doc "trailCanvas"%string = Some el ->
  init doc w h t0 t1
  = Ok (initial w h t0, [OnResize; OnMouseMove], frameStart (initial w h t0)).
Proof. intros E. unfold init. now rewrite E. Qed.

(** C3, on the code: on a page without the [trailCanvas] element start-up
    does not finish quietly: it raises a [TypeError], with no listener
    registered and no frame requested; on a page that has the element it
    sets the trail up. *)
Theorem init_without_canvas_raises :
  getElementById pageWithoutCanvas "trailCanvas"%string = None
  /\ init pageWithoutCanvas 800 600 0 1 = TypeError
  /\ init pageWithCanvas 800 600 0 1
     = Ok (initial 800 600 0, [OnResize; OnMouseMove],
           frameStart (initial 800 600 0)).
Proof. repeat split. Qed.


(** * Further properties of the trail *)

Lemma run_total (evs : list Event) (s : Trail) :
  exists s', run evs s = Ok s'.
Proof.
  revert s. induction evs as [| ev evs IH]; intros s; [now exists s |].
  cbn [run].
  assert (D : exists r, dispatch ev s = Ok r).
  { destruct ev as [now e | w h | now]; cbn; eauto.
    destruct (draw_total now s) as (s1 & cs & D). rewrite D. eauto. }
  destruct D as (r & ->). cbn. apply IH.
Qed.

(** X1: With the canvas and its 2D context in place, no sequence of
    pointer moves, resizes and frames ever raises, whatever state it
    starts from: the loop of [draw] never reads outside the buffer.  A
    buffer of at most [maxTrail] points stays within that bound. *)
Theorem events_never_raise (evs : list Event) (s : Trail) :
  exists s',
    run evs s = Ok s'
    /\ ((length (points s) <= maxTrail)%nat ->
        (length (points s') <= maxTrail)%nat).
Proof.
  destruct (run_total evs s) as (s' & R).
  exists s'. split; [exact R |].
  intros B. now apply (run_bounded evs s s').
Qed.

Lemma events_never_raise_witness :
  exists s',
    run [MouseMove 1 (mkPoint 3 4); Frame 2; Resized 10 10; Frame 500;
         MouseMove 600 (mkPoint 5 6); MouseMove 601 (mkPoint 7 8); Frame 1000]
      (recordAll samples35 (initial 800 600 0)) = Ok s'
    /\ (length (points s') <= maxTrail)%nat.
Proof.
  destruct (events_never_raise
              [MouseMove 1 (mkPoint 3 4); Frame 2; Resized 10 10; Frame 500;
               MouseMove 600 (mkPoint 5 6); MouseMove 601 (mkPoint 7 8);
               Frame 1000]
              (recordAll samples35 (initial 800 600 0)))
    as (s' & R & B).
  exists s'. split; [exact R |]. apply B. vm_compute. lia.
Defined.

Lemma filter_all_none {A : Type} (f : A -> bool) (l : list A) :
  filter f l = l -> filter (fun a => negb (f a)) l = [].
Proof.
  induction l as [| a l IH]; cbn; [reflexivity |].
  destruct (f a) eqn:F; cbn.
  - intros E. injection E as E. now apply IH.
  - intros E. exfalso.
    assert (L : (length (filter f l) <= length l)%nat)
      by apply filter_length_le.
    rewrite E in L. cbn in L. lia.
Qed.

Lemma frameRequests_context (cs : list Call) :
  contextCalls cs = cs -> frameRequests cs = 0%nat.
Proof.
  intros E. unfold frameRequests.
  apply filter_all_none in E.
  erewrite filter_ext; [rewrite E; reflexivity |].
  intros c. now destruct c.
Qed.

(** X2: Every frame, whichever way it ends, asks for the next frame
    exactly once, and does so before anything else. *)
Theorem draw_requests_one_frame (now : Q) (s : Trail) :
  exists s' cs,
    draw now s = Ok (s', cs)
    /\ frameRequests cs = 1%nat
    /\ hd_error cs = Some RequestAnimationFrame.
Proof.
  destruct (draw_cases now s)
    as [[L D] | [(L & F & D) | (L & F & _)]].
  - rewrite D. now eexists _, _.
  - rewrite D. now eexists _, _.
  - destruct (draw_visible now s L F) as (strokes & D & _ & C & _).
    rewrite D. eexists _, _. split; [reflexivity |]. split; [| reflexivity].
    apply frameRequests_context in C. unfold frameRequests in C |- *.
    cbn [frameStart app filter length]. now rewrite C.
Qed.

Lemma fadeProgress_grows (idle1 idle2 : Q) :
  idle1 <= idle2 -> fadeProgress idle1 <= fadeProgress idle2.
Proof.
  intros H.
  destruct (fadeProgress_cases idle1) as [[B1 F1] | [(B1 & U1 & F1) | [B1 F1]]];
  destruct (fadeProgress_cases idle2) as [[B2 F2] | [(B2 & U2 & F2) | [B2 F2]]];
  rewrite F1, F2; lra.
Qed.


(** What a drawing frame has put on the canvas at position [k]: the segment
    from point [k] to point [k + 1], in the colour of index [k + 1]. *)
Lemma frame_ink (now : Q) (s : Trail) (strokes : list Call) (sf : Surface)
  (k : nat) (ink : Painted) :
  (forall sf,
      map Some
        (bitmap
           (paint (canvasWidth s) (canvasHeight s) sf
              (frameStart s ++ [SetLineWidth 8; SetLineCap Round]
               ++ strokes)))
      = map (inkAt (points s) (fadeProgress (now - lastMove s)) 8 Round)
          (loopIndices (points s))) ->
  nth_error
    (bitmap
       (paint (canvasWidth s) (canvasHeight s) sf
          (frameStart s ++ [SetLineWidth 8; SetLineCap Round] ++ strokes)))
    k = Some ink ->
  (k + 1 < length (points s))%nat
  /\ nth_error (points s) k = Some (from ink)
  /\ nth_error (points s) (k + 1) = Some (to ink)
  /\ style ink
     = rgba 255 0 0
         (spec_alpha (length (points s)) (k + 1)
            (fadeProgress (now - lastMove s)))
  /\ thickness ink = 8
  /\ cap ink = Round.
Proof.
  intros P N.
  assert (M : nth_error
                (map (inkAt (points s) (fadeProgress (now - lastMove s))
                        8 Round) (loopIndices (points s))) k
              = Some (Some ink)).
  { rewrite <- (P sf), nth_error_map, N. reflexivity. }
  rewrite nth_error_map in M. unfold loopIndices in M.
  destruct (nth_error (seq 1 (length (points s) - 1)) k) as [i |] eqn:E;
    [| discriminate].
  assert (K : (k < length (points s) - 1)%nat).
  { rewrite <- (length_seq (length (points s) - 1) 1).
    apply nth_error_Some. now rewrite E. }
  rewrite (nth_error_nth' _ 0%nat) in E by now rewrite length_seq.
  rewrite seq_nth in E by exact K. injection E as <-.
  cbn [option_map] in M. injection M as M. unfold inkAt in M.
  replace (S k - 1)%nat with k in M by lia.
  replace (S k) with (k + 1)%nat in M by lia.
  destruct (nth_error (points s) k) as [p1 |]; [| discriminate M].
  destruct (nth_error (points s) (k + 1)) as [p2 |]; [| discriminate M].
  injection M as <-. cbn. repeat split. lia.
Qed.

Lemma fadeProgress_fresh (idle : Q) :
  idle <= trailIdleTimeout -> fadeProgress idle = 0.
Proof.
  unfold trailIdleTimeout.
  destruct (fadeProgress_cases idle) as [[B F] | [(B & U & F) | [B F]]];
    intros; [exact F | lra | lra].
Qed.








Lemma spec_alpha_fades (len i : nat) (fp1 fp2 : Q) :
  (0 < len)%nat -> fp1 <= fp2 ->
  spec_alpha len i fp2 <= spec_alpha len i fp1.
Proof.
  intros L F. unfold spec_alpha.
  rewrite !(Qmult_comm (inject_Z (Z.of_nat i) / inject_Z (Z.of_nat len))).
  apply Qmult_le_compat_r; [lra |].
  apply Qle_shift_div_l.
  - change 0 with (inject_Z 0). rewrite <- Zlt_Qlt. lia.
  - rewrite Qmult_0_l. change 0 with (inject_Z 0). rewrite <- Zle_Qle. lia.
Qed.

(** X5: While the pointer rests, a later frame that still draws paints
    the same segments as an earlier one: both put one stroke per pair of
    neighbours on the canvas, stroke [k] from point [k] to point [k + 1] in
    both, with the same width and cap, and in the later frame with at most
    the opacity it has in the earlier one. *)
Theorem later_frames_are_fainter (s : Trail) (now1 now2 : Q) :
  now1 <= now2 ->
  (2 <= length (points s))%nat ->
  fadeProgress (now2 - lastMove s) < 1 ->
  exists cs1 cs2,
    draw now1 s = Ok (s, cs1)
    /\ draw now2 s = Ok (s, cs2)
    /\ forall sf,
         let earlier :=
           bitmap (paint (canvasWidth s) (canvasHeight s) sf cs1) in
         let later :=
           bitmap (paint (canvasWidth s) (canvasHeight s) sf cs2) in
         length earlier = (length (points s) - 1)%nat
         /\ length later = (length (points s) - 1)%nat
         /\ forall k,
              (k < length (points s) - 1)%nat ->
              exists ink1 ink2,
                nth_error earlier k = Some ink1
                /\ nth_error later k = Some ink2
                /\ nth_error (points s) k = Some (from ink1)
                /\ nth_error (points s) (k + 1) = Some (to ink1)
                /\ from ink2 = from ink1
                /\ to ink2 = to ink1
                /\ thickness ink2 = thickness ink1
                /\ cap ink2 = cap ink1
                /\ opacity (style ink2) <= opacity (style ink1).
Proof.
  intros T L F2.
  assert (G : fadeProgress (now1 - lastMove s)
              <= fadeProgress (now2 - lastMove s))
    by (apply fadeProgress_grows; lra).
  assert (F1 : fadeProgress (now1 - lastMove s) < 1) by lra.
  destruct (draw_visible now1 s L F1) as (st1 & D1 & _ & _ & P1).
  destruct (draw_visible now2 s L F2) as (st2 & D2 & _ & _ & P2).
  eexists _, _. split; [exact D1 |]. split; [exact D2 |].
  intros sf earlier later.
  assert (N1 : length earlier = (length (points s) - 1)%nat).
  { unfold earlier. rewrite <- (length_map Some), (P1 sf), length_map.
    unfold loopIndices. apply length_seq. }
  assert (N2 : length later = (length (points s) - 1)%nat).
  { unfold later. rewrite <- (length_map Some), (P2 sf), length_map.
    unfold loopIndices. apply length_seq. }
  split; [exact N1 |]. split; [exact N2 |].
  intros k K.
  destruct (nth_error earlier k) as [ink1 |] eqn:E1;
    [| apply nth_error_None in E1; lia].
  destruct (nth_error later k) as [ink2 |] eqn:E2;
    [| apply nth_error_None in E2; lia].
  destruct (frame_ink now1 s st1 sf k ink1 P1 E1)
    as (_ & A1 & B1 & S1 & W1 & C1).
  destruct (frame_ink now2 s st2 sf k ink2 P2 E2)
    as (_ & A2 & B2 & S2 & W2 & C2).
  exists ink1, ink2. rewrite S1, S2, W1, W2, C1, C2. cbn [opacity].
  repeat split; try assumption; try congruence.
  apply spec_alpha_fades; [lia | exact G].
Qed.

Lemma later_frames_are_fainter_witness :
  exists cs1 cs2,
    draw 150 threePoints = Ok (threePoints, cs1)
    /\ draw 300 threePoints = Ok (threePoints, cs2)
    /\ length (bitmap (paint 800 600 blank cs1)) = 2%nat
    /\ length (bitmap (paint 800 600 blank cs2)) = 2%nat.
Proof.
  destruct (later_frames_are_fainter threePoints 150 300)
    as (cs1 & cs2 & D1 & D2 & B).
  - vm_compute. discriminate.
  - vm_compute. lia.
  - vm_compute. reflexivity.
  - exists cs1, cs2. split; [exact D1 |]. split; [exact D2 |].
    destruct (B blank) as (N1 & N2 & _). split; [exact N1 | exact N2].
Defined.

(** X6: After a frame has dropped a faded trail of two or more points, the
    next movement starts from nothing: the buffer holds the newly recorded
    points and none of the old ones. *)
Theorem trail_restarts_after_fade (now : Q) (s : Trail)
  (samples : list (Q * Point)) :
  (2 <= length (points s))%nat ->
  trailIdleTimeout + trailFadeDuration <= now - lastMove s ->
  (length samples <= maxTrail)%nat ->
  exists s1 cs,
    draw now s = Ok (s1, cs)
    /\ points (recordAll samples s1) = map snd samples.
Proof.
  intros L I B.
  exists (emptied s), (frameStart s). split.
  - apply draw_faded; [exact L |].
    rewrite (fadeProgress_after _ I). lra.
  - rewrite recordAll_points by (cbn; lia).
    cbn [emptied points app]. apply lastN_short. now rewrite length_map.
Qed.

Lemma trail_restarts_after_fade_witness :
  exists s1 cs,
    draw 400 threePoints = Ok (s1, cs)
    /\ points (recordAll [(500, mkPoint 7 7); (501, mkPoint 8 8)] s1)
       = [mkPoint 7 7; mkPoint 8 8].
Proof.
  apply (trail_restarts_after_fade 400 threePoints
           [(500, mkPoint 7 7); (501, mkPoint 8 8)]).
  - vm_compute. lia.
  - vm_compute. discriminate.
  - vm_compute. lia.
Defined.

(** X7: A buffer of one point is not dropped by any frame, so the next
    recorded position is joined to it, however long ago it was recorded: a
    frame that comes no later than [trailIdleTimeout] ms after the
    movement strokes exactly one segment, from the old point to the new
    one, with the opacity 1/2 of an unfaded trail of two points. *)
Theorem lone_point_joins_next_move (p q : Point) (s : Trail)
  (idleFrame t now : Q) :
  points s = [p] ->
  now - t <= trailIdleTimeout ->
  spec_alpha 2 1 0 == 1 # 2
  /\ exists cs0 cs,
       draw idleFrame s = Ok (s, cs0)
       /\ draw now (record t q s) = Ok (record t q s, cs)
       /\ forall sf,
            bitmap (paint (canvasWidth s) (canvasHeight s) sf cs)
            = [mkPainted p q (rgba 255 0 0 (spec_alpha 2 1 0)) 8 Round].
Proof.
  intros E I. split; [reflexivity |].
  assert (E' : points (record t q s) = [p; q]).
  { rewrite record_points, E. reflexivity. }
  assert (L : (2 <= length (points (record t q s)))%nat)
    by (rewrite E'; cbn; lia).
  assert (Z : fadeProgress (now - lastMove (record t q s)) = 0)
    by (apply fadeProgress_fresh; exact I).
  assert (F : fadeProgress (now - lastMove (record t q s)) < 1)
    by (rewrite Z; lra).
  destruct (draw_visible now (record t q s) L F) as (strokes & D & _ & _ & P).
  eexists _, _. split; [apply draw_few; rewrite E; cbn; lia |].
  split; [exact D |].
  intros sf. apply map_Some_inj.
  change (canvasWidth s) with (canvasWidth (record t q s)).
  change (canvasHeight s) with (canvasHeight (record t q s)).
  rewrite P, E', Z. reflexivity.
Qed.

Lemma lone_point_joins_next_move_witness :
  exists cs,
    draw 90010 (record 90000 (mkPoint 300 300) onePoint)
    = Ok (record 90000 (mkPoint 300 300) onePoint, cs)
    /\ map (fun ink => (from ink, to ink)) (bitmap (paint 800 600 blank cs))
       = [(mkPoint 5 7, mkPoint 300 300)].
Proof.
  destruct (lone_point_joins_next_move (mkPoint 5 7) (mkPoint 300 300)
              onePoint 351 90000 90010)
    as (_ & cs0 & cs & _ & D & B).
  - reflexivity.
  - vm_compute. discriminate.
  - exists cs. split; [exact D |].
    change 800%Z with (canvasWidth onePoint).
    change 600%Z with (canvasHeight onePoint).
    rewrite (B blank). reflexivity.
Defined.

(** * The project filters *)

Section FilterFacts.

Local Open Scope nat_scope.

Variable toLowerCase : string -> string.

Lemma forEachFrom_length {A B : Type} (f : nat -> A -> B) (i : nat)
  (l : list A) :
  length (Dom.forEachFrom f i l) = length l.
Proof.
  revert i. induction l as [| a l IH]; intros i; cbn; [reflexivity |].
  now rewrite IH.
Qed.

Lemma forEachFrom_nth {A B : Type} (f : nat -> A -> B) (i j : nat)
  (l : list A) :
  nth_error (Dom.forEachFrom f i l) j = option_map (f (i + j)) (nth_error l j).
Proof.
  revert i j. induction l as [| a l IH]; intros i j.
  - now destruct j.
  - destruct j as [| j]; cbn.
    + now rewrite Nat.add_0_r.
    + rewrite IH. now replace (S i + j) with (i + S j) by lia.
Qed.

Lemma setActiveButton_nth (k j : nat) (bs : list Filters.Button) :
  nth_error (Filters.setActiveButton k bs) j
  = option_map
      (fun b =>
         Filters.mkButton (Filters.dataFilter b)
           (Some (if j =? k then "true"%string else "false"%string)))
      (nth_error bs j).
Proof. unfold Filters.setActiveButton. now rewrite forEachFrom_nth. Qed.

(** How many buttons are pressed after marking the one at [k], counting
    from a button that stands at index [i]. *)
Lemma pressed_count (k i : nat) (bs : list Filters.Button) :
  length
    (filter Filters.pressed
       (Dom.forEachFrom
          (fun j btn =>
             Filters.mkButton (Filters.dataFilter btn)
               (Some (if j =? k then "true"%string else "false"%string)))
          i bs))
  = if (i <=? k) && (k <? i + length bs) then 1 else 0.
Proof.
  revert i. induction bs as [| b bs IH]; intros i.
  - cbn [Dom.forEachFrom filter length].
    destruct (Nat.leb_spec i k), (Nat.ltb_spec k (i + 0)); cbn;
      try reflexivity; lia.
  - cbn [Dom.forEachFrom filter length].
    unfold Filters.pressed at 1. cbn [Filters.ariaPressed].
    destruct (Nat.eqb_spec i k) as [-> | N].
    + change (String.eqb "true" "true") with true. cbv iota.
      cbn [length]. rewrite IH.
      destruct (Nat.leb_spec (S k) k); [lia |].
      destruct (Nat.leb_spec k k); [| lia].
      destruct (Nat.ltb_spec k (k + S (length bs))); [| lia].
      reflexivity.
    + change (String.eqb "false" "true") with false. cbv iota.
      rewrite IH.
      destruct (Nat.leb_spec (S i) k), (Nat.leb_spec i k),
        (Nat.ltb_spec k (S i + length bs)),
        (Nat.ltb_spec k (i + S (length bs))); cbn; try reflexivity; lia.
Qed.

Lemma setActiveButton_twice (j k : nat) (bs : list Filters.Button) :
  Filters.setActiveButton j (Filters.setActiveButton k bs)
  = Filters.setActiveButton j bs.
Proof.
  unfold Filters.setActiveButton. generalize 0.
  induction bs as [| b bs IH]; intros i; cbn; [reflexivity |].
  now rewrite IH.
Qed.

Lemma applyFilter_absorbs (f g : option string) (cs : list Filters.Card) :
  Filters.applyFilter toLowerCase f (Filters.applyFilter toLowerCase g cs)
  = Filters.applyFilter toLowerCase f cs.
Proof.
  unfold Filters.applyFilter. rewrite map_map. apply map_ext.
  intros card. reflexivity.
Qed.

End FilterFacts.

(** X8: Marking a button of the bar as active leaves exactly one button
    pressed, that one, whatever [aria-pressed] said before; every button
    gets an explicit "true" or "false" and keeps its filter. *)
Theorem one_button_pressed (k : nat) (bs : list Filters.Button) :
  (k < length bs)%nat ->
  length (filter Filters.pressed (Filters.setActiveButton k bs)) = 1%nat
  /\ length (Filters.setActiveButton k bs) = length bs
  /\ forall j b,
       nth_error (Filters.setActiveButton k bs) j = Some b ->
       (Filters.pressed b = true <-> j = k)
       /\ (Filters.ariaPressed b = Some "true"%string
           \/ Filters.ariaPressed b = Some "false"%string)
       /\ option_map Filters.dataFilter (nth_error bs j)
          = Some (Filters.dataFilter b).
Proof.
  intros K. split; [| split].
  - unfold Filters.setActiveButton. rewrite pressed_count.
    destruct (Nat.leb_spec 0 k); [| lia].
    destruct (Nat.ltb_spec k (0 + length bs)); [reflexivity | lia].
  - apply forEachFrom_length.
  - intros j b N. rewrite setActiveButton_nth in N.
    destruct (nth_error bs j) as [b0 |]; [| discriminate].
    cbn in N. injection N as <-. cbn.
    destruct (Nat.eqb_spec j k) as [-> | D].
    + repeat split; auto.
    + repeat split; auto; intros; try discriminate; contradiction.
Qed.

Lemma one_button_pressed_witness :
  map Filters.ariaPressed (Filters.setActiveButton 1 Filters.demoButtons)
  = [Some "false"; Some "true"; Some "false"]%string
  /\ length (filter Filters.pressed
               (Filters.setActiveButton 1 Filters.demoButtons)) = 1%nat.
Proof.
  split; [reflexivity |].
  apply (one_button_pressed 1 Filters.demoButtons). vm_compute. lia.
Defined.

(** X9: A filter that is missing, empty or a spelling of "all" shows every
    card; under any other filter the cards without a category of their own
    are hidden. *)
Theorem filter_all_and_uncategorised (toLowerCase : string -> string)
  (f : option string) (cs : list Filters.Card) :
  (toLowerCase (Dom.orElse f "all") = "all"%string ->
   Forall (fun c => Filters.display c = ""%string)
     (Filters.applyFilter toLowerCase f cs))
  /\ (toLowerCase "all"%string = "all"%string ->
      toLowerCase (Dom.orElse f "all") <> "all"%string ->
      forall j c0 c,
        nth_error cs j = Some c0 ->
        nth_error (Filters.applyFilter toLowerCase f cs) j = Some c ->
        Dom.orElse (Filters.dataCategory c0) "all" = "all"%string ->
        Filters.display c = "none"%string).
Proof.
  split.
  - intros A. unfold Filters.applyFilter. apply Forall_map, Forall_forall.
    intros c _. cbn. rewrite A. reflexivity.
  - intros A N j c0 c E0 E U.
    unfold Filters.applyFilter in E. rewrite nth_error_map, E0 in E.
    cbn in E. injection E as <-. cbn. rewrite U, A.
    destruct (String.eqb_spec (toLowerCase (Dom.orElse f "all")) "all");
      [contradiction |].
    destruct (String.eqb_spec "all" (toLowerCase (Dom.orElse f "all")));
      [congruence | reflexivity].
Qed.

Lemma filter_all_and_uncategorised_witness :
  map Filters.display
    (Filters.applyFilter Filters.asciiLower (Some "ALL"%string)
       Filters.demoCards)
  = [""; ""; ""; ""]%string
  /\ map Filters.display
       (Filters.applyFilter Filters.asciiLower (Some "Web"%string)
          Filters.demoCards)
     = [""; "none"; "none"; "none"]%string
  /\ Forall (fun c => Filters.display c = ""%string)
       (Filters.applyFilter Filters.asciiLower None Filters.demoCards)
  /\ (forall c,
        nth_error
          (Filters.applyFilter Filters.asciiLower (Some "Web"%string)
             Filters.demoCards) 2 = Some c ->
        Filters.display c = "none"%string).
Proof.
  split; [reflexivity |]. split; [reflexivity |]. split.
  - apply (proj1 (filter_all_and_uncategorised Filters.asciiLower None
                    Filters.demoCards)).
    reflexivity.
  - intros c E.
    apply (proj2 (filter_all_and_uncategorised Filters.asciiLower
                    (Some "Web"%string) Filters.demoCards)
             eq_refl) with (j := 2%nat) (c0 := Filters.mkCard None "");
      try reflexivity; [| exact E].
    vm_compute. discriminate.
Defined.

Lemma rem_next (i n : nat) :
  (i < n)%nat ->
  Z.rem (Z.of_nat i + 1) (Z.of_nat n) = Z.of_nat ((i + 1) mod n).
Proof.
  intros L. rewrite Z.rem_mod_nonneg by lia.
  rewrite Nat2Z.inj_mod. f_equal. lia.
Qed.

Lemma rem_prev (i n : nat) :
  (i < n)%nat ->
  Z.rem (Z.of_nat i - 1 + Z.of_nat n) (Z.of_nat n)
  = Z.of_nat ((i + n - 1) mod n).
Proof.
  intros L. rewrite Z.rem_mod_nonneg by lia.
  rewrite Nat2Z.inj_mod. f_equal. lia.
Qed.

Lemma focusAt_in_range (k : nat) (st : Filters.State) :
  (k < length (Filters.buttons st))%nat ->
  Filters.focusAt (Z.of_nat k) st
  = Ok (Filters.mkState (Filters.buttons st) (Filters.cards st) (Some k)).
Proof.
  intros L. unfold Filters.focusAt, Dom.at_.
  destruct (Z.ltb_spec (Z.of_nat k) 0); [lia |].
  rewrite Nat2Z.id.
  destruct (nth_error (Filters.buttons st) k) eqn:E; [reflexivity |].
  apply nth_error_None in E. lia.
Qed.

Lemma next_prev (i n : nat) :
  (i < n)%nat -> (((i + 1) mod n + n - 1) mod n = i)%nat.
Proof.
  intros L. destruct (Nat.eq_dec (i + 1) n) as [E | E].
  - rewrite E, Nat.Div0.mod_same. cbn [Nat.add].
    rewrite Nat.mod_small by lia. lia.
  - rewrite (Nat.mod_small (i + 1)) by lia.
    replace (i + 1 + n - 1)%nat with (i + 1 * n)%nat by lia.
    rewrite Nat.Div0.mod_add. apply Nat.mod_small. lia.
Qed.

Lemma prev_next (i n : nat) :
  (i < n)%nat -> (((i + n - 1) mod n + 1) mod n = i)%nat.
Proof.
  intros L. destruct i as [| i].
  - cbn [Nat.add]. rewrite (Nat.mod_small (n - 1)) by lia.
    replace (n - 1 + 1)%nat with n by lia. apply Nat.Div0.mod_same.
  - replace (S i + n - 1)%nat with (i + 1 * n)%nat by lia.
    rewrite Nat.Div0.mod_add, (Nat.mod_small i) by lia.
    rewrite Nat.mod_small by lia. lia.
Qed.

(** X10: The arrow keys move the focus round the filter bar and never
    leave it: from a button of the bar, ArrowRight focuses the next one
    and wraps from the last to the first, ArrowLeft the previous one and
    wraps from the first to the last; each undoes the other, neither
    raises, and neither touches the buttons or the cards. *)
Theorem arrows_cycle (toLowerCase : string -> string) (index : nat)
  (st : Filters.State) :
  let n := length (Filters.buttons st) in
  let withFocus k :=
    Filters.mkState (Filters.buttons st) (Filters.cards st) (Some k) in
  (index < n)%nat ->
  Filters.keydown toLowerCase index Dom.ArrowRight st
  = Ok (withFocus ((index + 1) mod n)%nat, true)
  /\ Filters.keydown toLowerCase index Dom.ArrowLeft st
     = Ok (withFocus ((index + n - 1) mod n)%nat, true)
  /\ ((index + 1) mod n < n)%nat
  /\ ((index + n - 1) mod n < n)%nat
  /\ Filters.keydown toLowerCase ((index + 1) mod n)%nat Dom.ArrowLeft
       (withFocus ((index + 1) mod n)%nat)
     = Ok (withFocus index, true)
  /\ Filters.keydown toLowerCase ((index + n - 1) mod n)%nat Dom.ArrowRight
       (withFocus ((index + n - 1) mod n)%nat)
     = Ok (withFocus index, true).
Proof.
  intros n withFocus L.
  assert (R : ((index + 1) mod n < n)%nat) by (apply Nat.mod_upper_bound; lia).
  assert (P : ((index + n - 1) mod n < n)%nat)
    by (apply Nat.mod_upper_bound; lia).
  assert (K : forall i st',
             Filters.buttons st' = Filters.buttons st ->
             Filters.cards st' = Filters.cards st ->
             (i < n)%nat ->
             Filters.keydown toLowerCase i Dom.ArrowRight st'
             = Ok (withFocus ((i + 1) mod n)%nat, true)
             /\ Filters.keydown toLowerCase i Dom.ArrowLeft st'
                = Ok (withFocus ((i + n - 1) mod n)%nat, true)).
  { intros i st' EB EC I. unfold Filters.keydown. rewrite EB.
    destruct (nth_error (Filters.buttons st) i) eqn:E;
      [| apply nth_error_None in E; fold n in E; lia].
    fold n. rewrite (rem_next i n I), (rem_prev i n I).
    rewrite !focusAt_in_range
      by (rewrite EB; fold n; apply Nat.mod_upper_bound; lia).
    rewrite EB, EC. split; reflexivity. }
  split; [now apply K |]. split; [now apply K |].
  split; [exact R |]. split; [exact P |]. split.
  - rewrite (proj2 (K _ (withFocus ((index + 1) mod n)%nat)
                      eq_refl eq_refl R)).
    now rewrite next_prev.
  - rewrite (proj1 (K _ (withFocus ((index + n - 1) mod n)%nat)
                      eq_refl eq_refl P)).
    now rewrite prev_next.
Qed.

Lemma arrows_cycle_witness :
  Filters.keydown Filters.asciiLower 2 Dom.ArrowRight
    (Filters.mkState Filters.demoButtons Filters.demoCards None)
  = Ok (Filters.mkState Filters.demoButtons Filters.demoCards (Some 0%nat),
        true)
  /\ Filters.keydown Filters.asciiLower 0 Dom.ArrowLeft
       (Filters.mkState Filters.demoButtons Filters.demoCards None)
     = Ok (Filters.mkState Filters.demoButtons Filters.demoCards
             (Some 2%nat), true).
Proof.
  split.
  - apply (arrows_cycle Filters.asciiLower 2
             (Filters.mkState Filters.demoButtons Filters.demoCards None)).
    vm_compute. lia.
  - apply (arrows_cycle Filters.asciiLower 0
             (Filters.mkState Filters.demoButtons Filters.demoCards None)).
    vm_compute. lia.
Defined.

Lemma findPressed_some (i k : nat) (b : Filters.Button)
  (bs : list Filters.Button) :
  Filters.findPressed i bs = Some (k, b) ->
  (i <= k)%nat
  /\ nth_error bs (k - i) = Some b
  /\ Filters.pressed b = true
  /\ forall j b',
       (j < k - i)%nat -> nth_error bs j = Some b' ->
       Filters.pressed b' = false.
Proof.
  revert i. induction bs as [| a bs IH]; intros i F; [discriminate |].
  cbn [Filters.findPressed] in F.
  assert (C : Filters.pressed a = true /\ Some (i, a) = Some (k, b)
              \/ Filters.pressed a = false
                 /\ Filters.findPressed (S i) bs = Some (k, b)).
  { unfold Filters.pressed. destruct (Filters.ariaPressed a) as [v |].
    - destruct (String.eqb v "true"); [left | right]; now split.
    - right. now split. }
  destruct C as [[Pa E] | [Pa E]].
  - injection E as <- <-. rewrite Nat.sub_diag.
    repeat split; auto. intros j b' J. lia.
  - destruct (IH (S i) E) as (L & N & Pb & Before).
    split; [lia |]. replace (k - i)%nat with (S (k - S i)) by lia.
    repeat split; auto.
    intros [| j] b' J N'; cbn in N'.
    + now injection N' as <-.
    + apply (Before j b'); [lia | exact N'].
Qed.

Lemma findPressed_none (i : nat) (bs : list Filters.Button) :
  Filters.findPressed i bs = None ->
  Forall (fun b => Filters.pressed b = false) bs.
Proof.
  revert i. induction bs as [| a bs IH]; intros i F; [constructor |].
  cbn [Filters.findPressed] in F.
  destruct (Filters.ariaPressed a) as [v |] eqn:A.
  - destruct (String.eqb v "true") eqn:V; [discriminate |].
    constructor; [| now apply (IH (S i))].
    unfold Filters.pressed. now rewrite A.
  - constructor; [| now apply (IH (S i))].
    unfold Filters.pressed. now rewrite A.
Qed.

(** X11: Start-up of the filters.  Without the filter bar nothing is set
    up and nothing is touched; a bar without buttons leaves the cards as
    they are.  Otherwise the default button is the first one marked as
    pressed, or the first button when none is; afterwards it is the only
    pressed button and the cards are filtered by it. *)
Theorem filters_start_up (toLowerCase : string -> string)
  (bs : list Filters.Button) (cs : list Filters.Card) :
  Filters.initProjectFilters toLowerCase None cs = None
  /\ Filters.initProjectFilters toLowerCase (Some []) cs
     = Some (Filters.mkState [] cs None)
  /\ (bs <> [] ->
      exists k b,
        nth_error bs k = Some b
        /\ (forall j b',
              (j < k)%nat -> nth_error bs j = Some b' ->
              Filters.pressed b' = false)
        /\ (Filters.pressed b = true
            \/ k = 0%nat /\ Forall (fun b' => Filters.pressed b' = false) bs)
        /\ Filters.initProjectFilters toLowerCase (Some bs) cs
           = Some (Filters.mkState (Filters.setActiveButton k bs)
                     (Filters.applyFilter toLowerCase
                        (Some (Dom.orElse (Filters.dataFilter b) "all")) cs)
                     None)
        /\ length (filter Filters.pressed (Filters.setActiveButton k bs))
           = 1%nat).
Proof.
  split; [reflexivity |]. split; [reflexivity |].
  intros NE. unfold Filters.initProjectFilters.
  assert (One : forall k b,
             nth_error bs k = Some b ->
             length (filter Filters.pressed (Filters.setActiveButton k bs))
             = 1%nat).
  { intros k b N. unfold Filters.setActiveButton. rewrite pressed_count.
    assert (k < length bs)%nat by (apply nth_error_Some; congruence).
    destruct (Nat.leb_spec 0 k); [| lia].
    destruct (Nat.ltb_spec k (0 + length bs)); [reflexivity | lia]. }
  destruct (Filters.findPressed 0 bs) as [[k b] |] eqn:F.
  - destruct (findPressed_some 0 k b bs F) as (_ & N & P & Before).
    rewrite Nat.sub_0_r in N, Before.
    exists k, b. repeat split; eauto.
  - destruct bs as [| b rest]; [contradiction |].
    exists 0%nat, b. repeat split; eauto.
    + intros j b' J. lia.
    + right. split; [reflexivity |]. now apply (findPressed_none 0).
    + now apply (One 0%nat b).
Qed.

Lemma filters_start_up_witness :
  exists st,
    Filters.initProjectFilters Filters.asciiLower (Some Filters.demoButtons)
      Filters.demoCards = Some st
    /\ map Filters.ariaPressed (Filters.buttons st)
       = [Some "true"; Some "false"; Some "false"]%string
    /\ map Filters.display (Filters.cards st) = [""; ""; ""; ""]%string.
Proof.
  destruct (proj2 (proj2 (filters_start_up Filters.asciiLower
                            Filters.demoButtons Filters.demoCards)))
    as (k & b & N & _ & P & I & _).
  - discriminate.
  - eexists. split; [exact I |].
    destruct P as [P | [-> _]].
    + destruct k as [| [| [| k]]]; cbn in N; try discriminate;
        injection N as <-; discriminate P.
    + cbn in N. injection N as <-. split; reflexivity.
Defined.

(** X12: Of two clicks on buttons of the bar only the second shows: the
    pressed button and the visible cards are those of the last click, so
    cards hidden by an earlier filter come back.  Enter and Space on a
    button do what a click on it does. *)
Theorem last_click_wins (toLowerCase : string -> string) (i j : nat)
  (st : Filters.State) :
  (i < length (Filters.buttons st))%nat ->
  (j < length (Filters.buttons st))%nat ->
  Filters.click toLowerCase j (Filters.click toLowerCase i st)
  = Filters.click toLowerCase j st
  /\ Filters.keydown toLowerCase j Dom.Enter st
     = Ok (Filters.click toLowerCase j st, true)
  /\ Filters.keydown toLowerCase j Dom.Space st
     = Ok (Filters.click toLowerCase j st, true).
Proof.
  intros I J.
  destruct (nth_error (Filters.buttons st) i) as [bi |] eqn:Ei;
    [| apply nth_error_None in Ei; lia].
  destruct (nth_error (Filters.buttons st) j) as [bj |] eqn:Ej;
    [| apply nth_error_None in Ej; lia].
  split; [| split].
  - unfold Filters.click at 2. rewrite Ei.
    unfold Filters.click. cbn [Filters.buttons Filters.cards Filters.focused].
    rewrite setActiveButton_nth, Ej. cbn [option_map Filters.dataFilter].
    now rewrite setActiveButton_twice, applyFilter_absorbs.
  - unfold Filters.keydown. now rewrite Ej.
  - unfold Filters.keydown. now rewrite Ej.
Qed.

Lemma last_click_wins_witness :
  map Filters.display
    (Filters.cards
       (Filters.click Filters.asciiLower 0
          (Filters.click Filters.asciiLower 1
             (Filters.mkState Filters.demoButtons Filters.demoCards None))))
  = [""; ""; ""; ""]%string.
Proof.
  rewrite (proj1 (last_click_wins Filters.asciiLower 1 0
                    (Filters.mkState Filters.demoButtons Filters.demoCards
                       None)
                    ltac:(vm_compute; lia) ltac:(vm_compute; lia))).
  reflexivity.
Defined.

(** * Class lists *)

Module DomFacts.

Lemma contains_In (c : string) (cl : list string) :
  Dom.contains c cl = true <-> In c cl.
Proof.
  unfold Dom.contains. rewrite existsb_exists. split.
  - intros (k & I & E). apply String.eqb_eq in E. now subst.
  - intros I. exists c. split; [exact I | apply String.eqb_refl].
Qed.

Lemma In_add (c k : string) (cl : list string) :
  In k (Dom.add c cl) <-> In k cl \/ k = c.
Proof.
  unfold Dom.add. destruct (Dom.contains c cl) eqn:C.
  - apply contains_In in C. split; [now left |].
    intros [I | ->]; assumption.
  - rewrite in_app_iff. cbn. intuition.
Qed.

Lemma In_remove (c k : string) (cl : list string) :
  In k (Dom.remove c cl) <-> In k cl /\ k <> c.
Proof.
  unfold Dom.remove. rewrite filter_In, negb_true_iff.
  split; intros [I N]; split; try assumption.
  - intros ->. now rewrite String.eqb_refl in N.
  - destruct (String.eqb_spec c k); [now subst |reflexivity].
Qed.

Lemma contains_add (c : string) (cl : list string) :
  Dom.contains c (Dom.add c cl) = true.
Proof. apply contains_In, In_add. now right. Qed.

Lemma contains_remove (c : string) (cl : list string) :
  Dom.contains c (Dom.remove c cl) = false.
Proof.
  destruct (Dom.contains c (Dom.remove c cl)) eqn:C; [| reflexivity].
  apply contains_In, In_remove in C. now destruct C.
Qed.

Lemma orElse_same (s : string) : Dom.orElse (Some s) "" = s.
Proof.
  unfold Dom.orElse. destruct (String.eqb_spec s ""); [now subst | reflexivity].
Qed.

End DomFacts.

Import DomFacts.

(** * The card lightbox *)

Lemma opened_consistent (st : Lightbox.State) (i : nat)
  (img : string * string) (c : string) :
  Lightbox.consistent st ->
  nth_error (Lightbox.cards st) i = Some (Lightbox.mkCard (Some img) c) ->
  Lightbox.consistent
    (Lightbox.mkState
       (Lightbox.openLightbox (fst img) (snd img) (Lightbox.modal st))
       (Lightbox.cards st)).
Proof.
  intros (K & _ & _) N.
  unfold Lightbox.consistent, Lightbox.isHidden, Lightbox.openLightbox.
  cbn [Lightbox.modal Lightbox.cards Lightbox.classList Lightbox.imgSrc
       Lightbox.imgAlt].
  rewrite contains_remove, orElse_same. repeat split.
  - apply In_remove. split; [exact K | discriminate].
  - discriminate.
  - intros _. now exists i, img, c.
Qed.

Lemma closed_consistent (st : Lightbox.State) :
  Lightbox.consistent st ->
  Lightbox.consistent
    (Lightbox.mkState (Lightbox.closeLightbox (Lightbox.modal st))
       (Lightbox.cards st)).
Proof.
  intros (K & _ & _).
  unfold Lightbox.consistent, Lightbox.isHidden, Lightbox.closeLightbox.
  cbn [Lightbox.modal Lightbox.cards Lightbox.classList Lightbox.imgSrc
       Lightbox.imgAlt].
  rewrite contains_add. repeat split.
  - apply In_add. now left.
  - discriminate.
Qed.

Lemma same_consistent (st : Lightbox.State) :
  Lightbox.consistent st ->
  Lightbox.consistent
    (Lightbox.mkState (Lightbox.modal st) (Lightbox.cards st)).
Proof. now destruct st. Qed.

Lemma handle_consistent (ev : Lightbox.Event) (st : Lightbox.State) :
  Lightbox.consistent st ->
  Lightbox.consistent (Lightbox.handle ev st)
  /\ Lightbox.cards (Lightbox.handle ev st) = Lightbox.cards st.
Proof.
  intros C. destruct ev as [i | i key | onOverlay | key]; cbn [Lightbox.handle].
  - destruct (nth_error (Lightbox.cards st) i) as [[[img |] c] |] eqn:N;
      try (split; [exact C | reflexivity]).
    split; [now apply (opened_consistent st i img c) | reflexivity].
  - split; [| reflexivity].
    destruct (nth_error (Lightbox.cards st) i) as [[[img |] c] |] eqn:N.
    + destruct key; cbn [Lightbox.cardKeydown Lightbox.windowKeydown];
        try now apply same_consistent.
      * now apply (opened_consistent st i img c).
      * now apply (opened_consistent st i img c).
      * now apply closed_consistent.
    + destruct key; cbn [Lightbox.windowKeydown];
        try now apply same_consistent.
      now apply closed_consistent.
    + destruct key; cbn [Lightbox.windowKeydown];
        try now apply same_consistent.
      now apply closed_consistent.
  - destruct onOverlay; [| split; [exact C | reflexivity]].
    split; [now apply closed_consistent | reflexivity].
  - split; [| reflexivity].
    destruct key; cbn [Lightbox.windowKeydown];
      try now apply same_consistent.
    now apply closed_consistent.
Qed.

(** X13: Whatever the visitor clicks and types, the lightbox stays
    consistent: the modal keeps its [lightbox-modal] class, holds no image
    while it is hidden, and while it is shown it holds the image and
    alternative text of one of the cards; the cards themselves are not
    changed after start-up. *)
Theorem lightbox_stays_consistent (cs : list Lightbox.Card)
  (evs : list Lightbox.Event) :
  let st := Lightbox.handleAll evs (Lightbox.initCardLightbox cs) in
  Lightbox.consistent st
  /\ Lightbox.cards st = Lightbox.cards (Lightbox.initCardLightbox cs)
  /\ map Lightbox.frontImg (Lightbox.cards st) = map Lightbox.frontImg cs.
Proof.
  intros st.
  assert (I : Lightbox.consistent (Lightbox.initCardLightbox cs)).
  { unfold Lightbox.consistent. cbn. repeat split; [now left | discriminate]. }
  assert (G : Lightbox.consistent st
              /\ Lightbox.cards st
                 = Lightbox.cards (Lightbox.initCardLightbox cs)).
  { unfold st, Lightbox.handleAll.
    induction evs as [| ev evs IH] using rev_ind; [now split |].
    rewrite fold_left_app. cbn [fold_left].
    destruct IH as [C E].
    destruct (handle_consistent ev _ C) as [C' E'].
    split; [exact C' | now rewrite E']. }
  destruct G as [C E]. split; [exact C |]. split; [exact E |].
  rewrite E. cbn [Lightbox.initCardLightbox Lightbox.cards].
  rewrite map_map. apply map_ext. intros card.
  now destruct (Lightbox.frontImg card) eqn:F.
Qed.

(** X14: A click, Enter or Space on a card with a front image opens the
    lightbox on that image; Escape (wherever it is pressed) or a click on
    the overlay then hides it again and clears the image source but not
    the alternative text; a click inside the modal that is not on the
    overlay changes nothing.  A card without a front image never opens the
    lightbox. *)
Theorem lightbox_open_close (st : Lightbox.State) (i : nat) :
  (forall src alt c,
      nth_error (Lightbox.cards st) i
      = Some (Lightbox.mkCard (Some (src, alt)) c) ->
      let opened := Lightbox.handle (Lightbox.ClickCard i) st in
      Lightbox.isHidden (Lightbox.modal opened) = false
      /\ Lightbox.imgSrc (Lightbox.modal opened) = src
      /\ Lightbox.imgAlt (Lightbox.modal opened) = alt
      /\ Lightbox.handle (Lightbox.KeyCard i Dom.Enter) st = opened
      /\ Lightbox.handle (Lightbox.KeyCard i Dom.Space) st = opened
      /\ Lightbox.handle (Lightbox.ClickModal false) opened = opened
      /\ forall closing,
           In closing
             [ Lightbox.KeyElsewhere Dom.Escape;
               Lightbox.KeyCard i Dom.Escape;
               Lightbox.ClickModal true ] ->
           let closed := Lightbox.handle closing opened in
           Lightbox.isHidden (Lightbox.modal closed) = true
           /\ Lightbox.imgSrc (Lightbox.modal closed) = ""%string
           /\ Lightbox.imgAlt (Lightbox.modal closed) = alt)
  /\ (forall c key,
        nth_error (Lightbox.cards st) i = Some (Lightbox.mkCard None c) ->
        Lightbox.handle (Lightbox.ClickCard i) st = st
        /\ (key <> Dom.Escape ->
            Lightbox.modal (Lightbox.handle (Lightbox.KeyCard i key) st)
            = Lightbox.modal st)).
Proof.
  split.
  - intros src alt c N opened.
    assert (O : opened
                = Lightbox.mkState
                    (Lightbox.openLightbox src alt (Lightbox.modal st))
                    (Lightbox.cards st)).
    { unfold opened. cbn [Lightbox.handle]. now rewrite N. }
    rewrite O. clear O opened.
    split; [| split; [| split; [| split; [| split; [| split]]]]].
    + unfold Lightbox.isHidden, Lightbox.openLightbox.
      cbn [Lightbox.modal Lightbox.classList]. apply contains_remove.
    + reflexivity.
    + cbn. apply orElse_same.
    + cbn [Lightbox.handle]. now rewrite N.
    + cbn [Lightbox.handle]. now rewrite N.
    + reflexivity.
    + intros closing In3 closed. unfold closed.
      destruct In3 as [<- | [<- | [<- | []]]];
        cbn [Lightbox.handle Lightbox.modal Lightbox.cards];
        rewrite ?N;
        cbn [Lightbox.cardKeydown Lightbox.windowKeydown];
        unfold Lightbox.isHidden, Lightbox.closeLightbox,
          Lightbox.openLightbox;
        cbn [Lightbox.modal Lightbox.classList Lightbox.imgSrc
             Lightbox.imgAlt];
        rewrite contains_add, orElse_same; repeat split.
  - intros c key N. cbn [Lightbox.handle]. rewrite N. split; [reflexivity |].
    intros K. destruct key; try reflexivity. contradiction.
Qed.

Lemma lightbox_open_close_witness :
  Lightbox.imgSrc
    (Lightbox.modal
       (Lightbox.handle (Lightbox.ClickCard 0)
          (Lightbox.initCardLightbox Lightbox.demoCards)))
  = "a.jpg"%string
  /\ Lightbox.handle (Lightbox.ClickCard 1)
       (Lightbox.initCardLightbox Lightbox.demoCards)
     = Lightbox.initCardLightbox Lightbox.demoCards
  /\ Lightbox.isHidden
       (Lightbox.modal
          (Lightbox.handle (Lightbox.KeyElsewhere Dom.Escape)
             (Lightbox.handle (Lightbox.ClickCard 0)
                (Lightbox.initCardLightbox Lightbox.demoCards))))
     = true.
Proof.
  split; [| split].
  - apply (proj1 (lightbox_open_close
                    (Lightbox.initCardLightbox Lightbox.demoCards) 0)
             "a.jpg"%string "A"%string "zoom-in"%string).
    reflexivity.
  - apply (proj2 (lightbox_open_close
                    (Lightbox.initCardLightbox Lightbox.demoCards) 1)
             ""%string Dom.Enter).
    reflexivity.
  - apply (proj1 (lightbox_open_close
                    (Lightbox.initCardLightbox Lightbox.demoCards) 0)
             "a.jpg"%string "A"%string "zoom-in"%string eq_refl).
    now left.
Defined.

(** * The scroll reveals *)

Section RevealFacts.

Lemma fold_left_keeps {A S : Type} (f : S -> A -> S) (P : S -> Prop) :
  (forall s a, P s -> P (f s a)) ->
  forall l s, P s -> P (fold_left f l s).
Proof.
  intros Step l. induction l as [| a l IH]; intros s H; [exact H |].
  cbn. apply IH, Step, H.
Qed.

Lemma addClass_keeps (node n : nat) (k c : string)
  (cls : nat -> list string) :
  In c (cls n) -> In c (Reveal.addClass node k cls n).
Proof.
  intros I. unfold Reveal.addClass.
  destruct (n =? node)%nat; [apply In_add; now left | exact I].
Qed.

Lemma addClass_adds (node : nat) (k : string) (cls : nat -> list string) :
  In k (Reveal.addClass node k cls node).
Proof.
  unfold Reveal.addClass. rewrite Nat.eqb_refl. apply In_add. now right.
Qed.

Lemma addClass_other (node n : nat) (k : string)
  (cls : nat -> list string) :
  n <> node -> Reveal.addClass node k cls n = cls n.
Proof.
  intros N. unfold Reveal.addClass.
  destruct (Nat.eqb_spec n node); [contradiction | reflexivity].
Qed.

Lemma In_observe (node n : nat) (targets : list nat) :
  In n (Reveal.observe node targets) <-> In n targets \/ n = node.
Proof.
  unfold Reveal.observe.
  destruct (existsb (Nat.eqb node) targets) eqn:E.
  - apply existsb_exists in E. destruct E as (m & I & E).
    apply Nat.eqb_eq in E. subst m. split; [now left |].
    intros [H | ->]; assumption.
  - rewrite in_app_iff. cbn. intuition.
Qed.

Lemma In_unobserve (node n : nat) (targets : list nat) :
  In n (Reveal.unobserve node targets) <-> In n targets /\ n <> node.
Proof.
  unfold Reveal.unobserve. rewrite filter_In, negb_true_iff, Nat.eqb_neq.
  reflexivity.
Qed.

(** Adding a class to each node of a list. *)
Lemma addClass_all (k : string) (l : list nat) (cls : nat -> list string)
  (n : nat) (c : string) :
  (In c (cls n) \/ (c = k /\ In n l)) ->
  In c (fold_left (fun cl el => Reveal.addClass el k cl) l cls n).
Proof.
  revert cls. induction l as [| el l IH]; intros cls [I | [E H]]; cbn.
  - exact I.
  - destruct H.
  - apply IH. left. now apply addClass_keeps.
  - subst c. apply IH. destruct H as [-> | H].
    + left. apply addClass_adds.
    + right. now split.
Qed.

Lemma observe_all (l : list nat) (obs : list nat) (n : nat) :
  (In n obs \/ In n l) ->
  In n (fold_left (fun o el => Reveal.observe el o) l obs).
Proof.
  revert obs. induction l as [| el l IH]; intros obs [I | I]; cbn.
  - exact I.
  - destruct I.
  - apply IH. left. apply In_observe. now left.
  - apply IH. destruct I as [-> | I].
    + left. apply In_observe. now right.
    + now right.
Qed.

End RevealFacts.

Lemma revealOnScroll_snoc (entries : list Reveal.Entry) (e : Reveal.Entry)
  (st : Reveal.State) :
  Reveal.revealOnScroll (entries ++ [e]) st
  = Reveal.revealOnScroll [e] (Reveal.revealOnScroll entries st).
Proof. unfold Reveal.revealOnScroll. now rewrite fold_left_app. Qed.

Lemma revealStaggered_snoc (entries : list Reveal.Entry) (e : Reveal.Entry)
  (st : Reveal.State) :
  Reveal.revealStaggered (entries ++ [e]) st
  = Reveal.revealStaggered [e] (Reveal.revealStaggered entries st).
Proof. unfold Reveal.revealStaggered. now rewrite fold_left_app. Qed.

Lemma revealOnScroll_keeps (entries : list Reveal.Entry) (st : Reveal.State)
  (n : nat) (c : string) :
  In c (Reveal.classes st n) ->
  In c (Reveal.classes (Reveal.revealOnScroll entries st) n).
Proof.
  unfold Reveal.revealOnScroll.
  apply (fold_left_keeps _ (fun s => In c (Reveal.classes s n))).
  intros s e I. destruct (Reveal.isIntersecting e); [| exact I].
  now apply addClass_keeps.
Qed.

Lemma revealStaggered_keeps (entries : list Reveal.Entry) (st : Reveal.State)
  (n : nat) (c : string) :
  In c (Reveal.classes st n) ->
  In c (Reveal.classes (Reveal.revealStaggered entries st) n).
Proof.
  unfold Reveal.revealStaggered.
  apply (fold_left_keeps _ (fun s => In c (Reveal.classes s n))).
  intros s e I. destruct (Reveal.isIntersecting e); [| exact I].
  now apply addClass_keeps.
Qed.

Lemma revealOnScroll_other_observer (entries : list Reveal.Entry)
  (st : Reveal.State) :
  Reveal.staggerObserver (Reveal.revealOnScroll entries st)
  = Reveal.staggerObserver st.
Proof.
  unfold Reveal.revealOnScroll.
  apply (fold_left_keeps _
           (fun s => Reveal.staggerObserver s = Reveal.staggerObserver st));
    [| reflexivity].
  intros s e I. now destruct (Reveal.isIntersecting e).
Qed.

Lemma revealStaggered_other_observer (entries : list Reveal.Entry)
  (st : Reveal.State) :
  Reveal.singleObserver (Reveal.revealStaggered entries st)
  = Reveal.singleObserver st.
Proof.
  unfold Reveal.revealStaggered.
  apply (fold_left_keeps _
           (fun s => Reveal.singleObserver s = Reveal.singleObserver st));
    [| reflexivity].
  intros s e I. now destruct (Reveal.isIntersecting e).
Qed.

Lemma handle_keeps_class (ev : Reveal.Event) (st : Reveal.State) (n : nat)
  (c : string) :
  In c (Reveal.classes st n) -> In c (Reveal.classes (Reveal.handle ev st) n).
Proof.
  destruct ev as [entries | entries |]; cbn [Reveal.handle].
  - apply revealOnScroll_keeps.
  - apply revealStaggered_keeps.
  - trivial.
Qed.

Lemma init_keeps_class (reduced : bool) (animated staggered : list nat)
  (st : Reveal.State) (n : nat) (c : string) :
  In c (Reveal.classes st n) ->
  In c (Reveal.classes
          (Reveal.initScrollAnimations reduced animated staggered st) n).
Proof.
  intros I. unfold Reveal.initScrollAnimations.
  destruct reduced; [| exact I].
  cbn [Reveal.classes]. apply addClass_all. left.
  apply addClass_all. now left.
Qed.

(** X15: Nothing in the reveal code ever takes a class away: a class a
    node has at start-up, or gets from a reveal, is still there after any
    reports of the observers and after a clean-up.  Scrolling a revealed
    element out of view does not hide it again. *)
Theorem reveal_never_hides (reduced : bool) (animated staggered : list nat)
  (evs : list Reveal.Event) (st : Reveal.State) (n : nat) (c : string) :
  In c (Reveal.classes st n) ->
  In c (Reveal.classes
          (Reveal.handleAll evs
             (Reveal.initScrollAnimations reduced animated staggered st)) n).
Proof.
  intros I. unfold Reveal.handleAll.
  apply (fold_left_keeps _ (fun s => In c (Reveal.classes s n))).
  - intros s ev. apply handle_keeps_class.
  - now apply init_keeps_class.
Qed.

Lemma reveal_never_hides_witness :
  In "visible"%string
    (Reveal.classes
       (Reveal.handleAll
          [Reveal.SingleReports [Reveal.mkEntry false 3]; Reveal.Cleanup]
          (Reveal.initScrollAnimations false [3%nat] []
             (Reveal.revealOnScroll [Reveal.mkEntry true 3] Reveal.bare)))
       3).
Proof.
  apply (reveal_never_hides false [3%nat] []
           [Reveal.SingleReports [Reveal.mkEntry false 3]; Reveal.Cleanup]
           (Reveal.revealOnScroll [Reveal.mkEntry true 3] Reveal.bare)
           3 "visible"%string).
  vm_compute. now left.
Defined.

(** X16: What one report of [singleObserver] does: every target reported
    as intersecting ends up with the class [visible] and is no longer
    observed; a node not reported as intersecting keeps its classes and
    stays observed or unobserved as it was; the other observer is not
    touched. *)
Theorem reveal_report_effect (entries : list Reveal.Entry)
  (st : Reveal.State) (t : nat) :
  let st' := Reveal.revealOnScroll entries st in
  Reveal.staggerObserver st' = Reveal.staggerObserver st
  /\ ((exists e,
         In e entries /\ Reveal.isIntersecting e = true
         /\ Reveal.target e = t) ->
      In "visible"%string (Reveal.classes st' t)
      /\ ~ In t (Reveal.singleObserver st'))
  /\ ((forall e,
         In e entries -> Reveal.isIntersecting e = true ->
         Reveal.target e <> t) ->
      Reveal.classes st' t = Reveal.classes st t
      /\ (In t (Reveal.singleObserver st')
          <-> In t (Reveal.singleObserver st))).
Proof.
  intros st'. split; [apply revealOnScroll_other_observer |].
  unfold st'. clear st'.
  induction entries as [| e entries IH] using rev_ind.
  - split.
    + intros (e & [] & _).
    + intros _. split; reflexivity.
  - rewrite revealOnScroll_snoc.
    set (mid := Reveal.revealOnScroll entries st) in *.
    destruct IH as [IH1 IH2]. split.
    + intros (e0 & I & X & T). apply in_app_or in I.
      destruct I as [I | [<- | []]].
      * destruct IH1 as [V O]; [now exists e0 |].
        cbn. destruct (Reveal.isIntersecting e); [| now split].
        cbn. split; [now apply addClass_keeps |].
        intros U. apply In_unobserve in U. now destruct U.
      * cbn. rewrite X, T. cbn. split; [apply addClass_adds |].
        intros U. apply In_unobserve in U. now destruct U.
    + intros N.
      destruct IH2 as [C O].
      { intros e0 I. apply N, in_or_app. now left. }
      cbn. destruct (Reveal.isIntersecting e) eqn:X; [| now split].
      assert (D : t <> Reveal.target e).
      { intros ->. apply (N e); [apply in_or_app; right; now left | exact X |].
        reflexivity. }
      cbn. rewrite addClass_other by exact D. split; [exact C |].
      rewrite In_unobserve, O. intuition.
Qed.

Lemma reveal_report_effect_witness :
  (In "visible"%string
     (Reveal.classes
        (Reveal.revealOnScroll
           [Reveal.mkEntry true 1; Reveal.mkEntry false 2]
           (Reveal.initScrollAnimations false [1; 2]%nat [] Reveal.bare)) 1)
   /\ ~ In 1%nat
        (Reveal.singleObserver
           (Reveal.revealOnScroll
              [Reveal.mkEntry true 1; Reveal.mkEntry false 2]
              (Reveal.initScrollAnimations false [1; 2]%nat [] Reveal.bare))))
  /\ In 2%nat
       (Reveal.singleObserver
          (Reveal.revealOnScroll
             [Reveal.mkEntry true 1; Reveal.mkEntry false 2]
             (Reveal.initScrollAnimations false [1; 2]%nat [] Reveal.bare))).
Proof.
  split.
  - apply (proj1 (proj2 (reveal_report_effect
                           [Reveal.mkEntry true 1; Reveal.mkEntry false 2]
                           (Reveal.initScrollAnimations false [1; 2]%nat []
                              Reveal.bare) 1))).
    exists (Reveal.mkEntry true 1). repeat split. now left.
  - apply (proj2 (proj2 (reveal_report_effect
                           [Reveal.mkEntry true 1; Reveal.mkEntry false 2]
                           (Reveal.initScrollAnimations false [1; 2]%nat []
                              Reveal.bare) 2))).
    + intros e [<- | [<- | []]]; cbn; intros X; [discriminate | discriminate].
    + vm_compute. right. now left.
Defined.

Lemma revealOnScroll_covers (l : list nat) (entries : list Reveal.Entry)
  (st : Reveal.State) :
  (forall n, In n l ->
     In "visible"%string (Reveal.classes st n)
     \/ In n (Reveal.singleObserver st)) ->
  forall n, In n l ->
    In "visible"%string (Reveal.classes (Reveal.revealOnScroll entries st) n)
    \/ In n (Reveal.singleObserver (Reveal.revealOnScroll entries st)).
Proof.
  unfold Reveal.revealOnScroll.
  apply (fold_left_keeps _
           (fun s => forall n, In n l ->
              In "visible"%string (Reveal.classes s n)
              \/ In n (Reveal.singleObserver s))).
  intros s e H n I. destruct (Reveal.isIntersecting e); [| now apply H].
  cbn. destruct (Nat.eq_dec n (Reveal.target e)) as [-> | D].
  - left. apply addClass_adds.
  - destruct (H n I) as [V | O].
    + left. now apply addClass_keeps.
    + right. apply In_unobserve. now split.
Qed.

Lemma revealStaggered_covers (l : list nat) (entries : list Reveal.Entry)
  (st : Reveal.State) :
  (forall n, In n l ->
     In "revealed"%string (Reveal.classes st n)
     \/ In n (Reveal.staggerObserver st)) ->
  forall n, In n l ->
    In "revealed"%string
      (Reveal.classes (Reveal.revealStaggered entries st) n)
    \/ In n (Reveal.staggerObserver (Reveal.revealStaggered entries st)).
Proof.
  unfold Reveal.revealStaggered.
  apply (fold_left_keeps _
           (fun s => forall n, In n l ->
              In "revealed"%string (Reveal.classes s n)
              \/ In n (Reveal.staggerObserver s))).
  intros s e H n I. destruct (Reveal.isIntersecting e); [| now apply H].
  cbn. destruct (Nat.eq_dec n (Reveal.target e)) as [-> | D].
  - left. apply addClass_adds.
  - destruct (H n I) as [V | O].
    + left. now apply addClass_keeps.
    + right. apply In_unobserve. now split.
Qed.

(** X17: No element is left behind: after start-up and any reports of the
    two observers (short of a clean-up), every [.animate-on-scroll] node
    is either already [visible] or still observed, and every staggered
    node is either already [revealed] or still observed.  With reduced
    motion preferred, all of them are shown at once and nothing is
    observed that was not observed before. *)
Theorem no_element_left_behind (reduced : bool)
  (animated staggered : list nat) (evs : list Reveal.Event)
  (st : Reveal.State) :
  Forall (fun ev => ev <> Reveal.Cleanup) evs ->
  let st0 := Reveal.initScrollAnimations reduced animated staggered st in
  let st' := Reveal.handleAll evs st0 in
  (forall n, In n animated ->
     In "visible"%string (Reveal.classes st' n)
     \/ In n (Reveal.singleObserver st'))
  /\ (forall n, In n staggered ->
        In "revealed"%string (Reveal.classes st' n)
        \/ In n (Reveal.staggerObserver st'))
  /\ (reduced = true ->
      Reveal.singleObserver st0 = Reveal.singleObserver st
      /\ Reveal.staggerObserver st0 = Reveal.staggerObserver st
      /\ (forall n, In n animated ->
            In "visible"%string (Reveal.classes st' n))
      /\ (forall n, In n staggered ->
            In "revealed"%string (Reveal.classes st' n))).
Proof.
  intros NC st0 st'.
  assert (I1 : forall n, In n animated ->
            In "visible"%string (Reveal.classes st0 n)
            \/ In n (Reveal.singleObserver st0)).
  { intros n I. unfold st0, Reveal.initScrollAnimations. destruct reduced.
    - left. cbn [Reveal.classes]. apply addClass_all. left.
      apply addClass_all. right. now split.
    - right. cbn [Reveal.singleObserver]. apply observe_all. now right. }
  assert (I2 : forall n, In n staggered ->
            In "revealed"%string (Reveal.classes st0 n)
            \/ In n (Reveal.staggerObserver st0)).
  { intros n I. unfold st0, Reveal.initScrollAnimations. destruct reduced.
    - left. cbn [Reveal.classes]. apply addClass_all. right. now split.
    - right. cbn [Reveal.staggerObserver]. apply observe_all. now right. }
  assert (G : (forall n, In n animated ->
                 In "visible"%string (Reveal.classes st' n)
                 \/ In n (Reveal.singleObserver st'))
              /\ (forall n, In n staggered ->
                    In "revealed"%string (Reveal.classes st' n)
                    \/ In n (Reveal.staggerObserver st'))).
  { unfold st', Reveal.handleAll. clearbody st0. clear st'.
    induction evs as [| ev evs IH] using rev_ind; [now split |].
    rewrite fold_left_app. cbn [fold_left].
    apply Forall_app in NC. destruct NC as [NC1 NC2].
    destruct (IH NC1) as [H1 H2].
    destruct ev as [entries | entries |]; cbn [Reveal.handle].
    - split; [now apply revealOnScroll_covers |].
      intros n I. rewrite revealOnScroll_other_observer.
      destruct (H2 n I) as [V | O]; [left | now right].
      now apply revealOnScroll_keeps.
    - split; [| now apply revealStaggered_covers].
      intros n I. rewrite revealStaggered_other_observer.
      destruct (H1 n I) as [V | O]; [left | now right].
      now apply revealStaggered_keeps.
    - inversion NC2 as [| ? ? X]. now contradiction X. }
  destruct G as [G1 G2]. split; [exact G1 |]. split; [exact G2 |].
  intros ->. split; [reflexivity |]. split; [reflexivity |].
  assert (K : forall n c,
             In c (Reveal.classes st0 n) -> In c (Reveal.classes st' n)).
  { intros n c I. unfold st', Reveal.handleAll.
    apply (fold_left_keeps _ (fun s => In c (Reveal.classes s n)));
      [| exact I].
    intros s ev. apply handle_keeps_class. }
  split; intros n I; apply K; unfold st0, Reveal.initScrollAnimations;
    cbn [Reveal.classes]; apply addClass_all.
  - left. apply addClass_all. right. now split.
  - right. now split.
Qed.

Lemma no_element_left_behind_witness :
  (forall n, In n [1; 2]%nat ->
     In "visible"%string
       (Reveal.classes
          (Reveal.handleAll
             [Reveal.SingleReports
                [Reveal.mkEntry true 1; Reveal.mkEntry false 2]]
             (Reveal.initScrollAnimations false [1; 2]%nat [5%nat]
                Reveal.bare)) n)
     \/ In n
          (Reveal.singleObserver
             (Reveal.handleAll
                [Reveal.SingleReports
                   [Reveal.mkEntry true 1; Reveal.mkEntry false 2]]
                (Reveal.initScrollAnimations false [1; 2]%nat [5%nat]
                   Reveal.bare))))
  /\ (forall n, In n [1; 2]%nat ->
        In "visible"%string
          (Reveal.classes
             (Reveal.handleAll []
                (Reveal.initScrollAnimations true [1; 2]%nat [5%nat]
                   Reveal.bare)) n)).
Proof.
  split.
  - apply (no_element_left_behind false [1; 2]%nat [5%nat]
             [Reveal.SingleReports
                [Reveal.mkEntry true 1; Reveal.mkEntry false 2]]
             Reveal.bare).
    repeat constructor. discriminate.
  - apply (no_element_left_behind true [1; 2]%nat [5%nat] [] Reveal.bare);
      [constructor | reflexivity].
Defined.

(** * The active navigation link *)

Section NavFacts.

Variable id : string.

(** One link after the inner loop for section [id]. *)
Lemma highlight_nth (links : list ActiveNav.Link) (j : nat)
  (l0 : ActiveNav.Link) :
  nth_error links j = Some l0 ->
  exists l,
    nth_error (ActiveNav.highlight id links) j = Some l
    /\ ActiveNav.href l = ActiveNav.href l0
    /\ (ActiveNav.isActive l = true
        <-> ActiveNav.href l0 = Some (String.append "#" id))
    /\ (ActiveNav.ariaCurrent l = Some "true"%string
        <-> ActiveNav.href l0 = Some (String.append "#" id))
    /\ (ActiveNav.href l0 <> Some (String.append "#" id) ->
        ActiveNav.ariaCurrent l = None)
    /\ forall c,
         c <> "active"%string ->
         (In c (ActiveNav.classList l) <-> In c (ActiveNav.classList l0)).
Proof.
  intros N. unfold ActiveNav.highlight. rewrite nth_error_map, N.
  cbn [option_map]. eexists. split; [reflexivity |].
  unfold ActiveNav.isActive.
  destruct (ActiveNav.href l0) as [h |] eqn:H.
  - destruct (String.eqb_spec h (String.append "#" id)) as [-> | D];
      cbn [ActiveNav.href ActiveNav.classList ActiveNav.ariaCurrent].
    + rewrite contains_add. repeat split; auto; try congruence.
      * intros I. apply In_add in I. destruct I; [assumption | congruence].
      * intros I. apply In_add. now left.
    + rewrite contains_remove. repeat split; auto; try congruence.
      * intros I. apply In_remove in I. now destruct I.
      * intros I. apply In_remove. split; auto.
  - cbn [ActiveNav.href ActiveNav.classList ActiveNav.ariaCurrent].
    rewrite contains_remove. repeat split; auto; try congruence.
    + intros I. apply In_remove in I. now destruct I.
    + intros I. apply In_remove. split; auto.
Qed.

End NavFacts.

Lemma navCallback_snoc (entries : list ActiveNav.Entry) (e : ActiveNav.Entry)
  (links : list ActiveNav.Link) :
  ActiveNav.navCallback (entries ++ [e]) links
  = if ActiveNav.isIntersecting e
    then ActiveNav.highlight (ActiveNav.targetId e)
           (ActiveNav.navCallback entries links)
    else ActiveNav.navCallback entries links.
Proof. unfold ActiveNav.navCallback. now rewrite fold_left_app. Qed.

Lemma lastIntersecting_snoc (entries : list ActiveNav.Entry)
  (e : ActiveNav.Entry) :
  ActiveNav.lastIntersecting (entries ++ [e])
  = if ActiveNav.isIntersecting e then Some (ActiveNav.targetId e)
    else ActiveNav.lastIntersecting entries.
Proof. unfold ActiveNav.lastIntersecting. now rewrite fold_left_app. Qed.

(** The callback keeps every link in its place, with its [href] and its
    classes other than [active]. *)
Lemma navCallback_frame (entries : list ActiveNav.Entry)
  (links : list ActiveNav.Link) (j : nat) (l0 : ActiveNav.Link) :
  nth_error links j = Some l0 ->
  exists l,
    nth_error (ActiveNav.navCallback entries links) j = Some l
    /\ ActiveNav.href l = ActiveNav.href l0
    /\ forall c,
         c <> "active"%string ->
         (In c (ActiveNav.classList l) <-> In c (ActiveNav.classList l0)).
Proof.
  intros N. induction entries as [| e entries IH] using rev_ind.
  - exists l0. repeat split; auto.
  - rewrite navCallback_snoc. destruct IH as (m & M & H & C).
    destruct (ActiveNav.isIntersecting e); [| now exists m].
    destruct (highlight_nth (ActiveNav.targetId e) _ j m M)
      as (l & L & H' & _ & _ & _ & C').
    exists l. split; [exact L |]. split; [congruence |].
    intros c D. now rewrite (C' c D), (C c D).
Qed.

Lemma navCallback_length (entries : list ActiveNav.Entry)
  (links : list ActiveNav.Link) :
  length (ActiveNav.navCallback entries links) = length links.
Proof.
  induction entries as [| e entries IH] using rev_ind; [reflexivity |].
  rewrite navCallback_snoc.
  destruct (ActiveNav.isIntersecting e); [| exact IH].
  unfold ActiveNav.highlight. now rewrite length_map.
Qed.

Lemma navCallback_last (entries : list ActiveNav.Entry)
  (links : list ActiveNav.Link) (id : string) :
  ActiveNav.lastIntersecting entries = Some id ->
  exists before,
    ActiveNav.navCallback entries links
    = ActiveNav.highlight id (ActiveNav.navCallback before links).
Proof.
  induction entries as [| e entries IH] using rev_ind; [discriminate |].
  rewrite lastIntersecting_snoc, navCallback_snoc.
  destruct (ActiveNav.isIntersecting e).
  - intros E. injection E as <-. now exists entries.
  - exact IH.
Qed.

Lemma navCallback_link (entries : list ActiveNav.Entry)
  (links : list ActiveNav.Link) (id : string) (j : nat)
  (l0 : ActiveNav.Link) :
  ActiveNav.lastIntersecting entries = Some id ->
  nth_error links j = Some l0 ->
  exists l,
    nth_error (ActiveNav.navCallback entries links) j = Some l
    /\ ActiveNav.href l = ActiveNav.href l0
    /\ (ActiveNav.isActive l = true
        <-> ActiveNav.href l0 = Some (String.append "#" id))
    /\ (ActiveNav.ariaCurrent l = Some "true"%string
        <-> ActiveNav.href l0 = Some (String.append "#" id))
    /\ (ActiveNav.href l0 <> Some (String.append "#" id) ->
        ActiveNav.ariaCurrent l = None)
    /\ forall c,
         c <> "active"%string ->
         (In c (ActiveNav.classList l) <-> In c (ActiveNav.classList l0)).
Proof.
  intros L N. destruct (navCallback_last entries links id L) as (before & ->).
  destruct (navCallback_frame before links j l0 N) as (m & M & H & C).
  destruct (highlight_nth id _ j m M) as (l & E & H' & A & R & R' & C').
  exists l. rewrite H in A, R, R'.
  repeat split; try tauto; try congruence;
    intros I;
    match goal with
    | D : _ <> "active"%string |- _ =>
        first [apply (C _ D), (C' _ D), I | apply (C' _ D), (C _ D), I]
    end.
Qed.

(** X18: Of the sections an observer report shows as intersecting, the
    last one decides: afterwards a link is [active], and has
    [aria-current] set to "true", exactly when its [href] is "#" followed
    by that section's id; every other link has neither.  A report without
    an intersecting entry, such as a section leaving the middle of the
    viewport, changes nothing.  The links keep their place, their [href]
    and their other classes. *)
Theorem last_section_wins (entries : list ActiveNav.Entry)
  (links : list ActiveNav.Link) :
  (ActiveNav.lastIntersecting entries = None ->
   ActiveNav.navCallback entries links = links)
  /\ (forall id,
        ActiveNav.lastIntersecting entries = Some id ->
        length (ActiveNav.navCallback entries links) = length links
        /\ forall j l0,
             nth_error links j = Some l0 ->
             exists l,
               nth_error (ActiveNav.navCallback entries links) j = Some l
               /\ ActiveNav.href l = ActiveNav.href l0
               /\ (ActiveNav.isActive l = true
                   <-> ActiveNav.href l0 = Some (String.append "#" id))
               /\ (ActiveNav.ariaCurrent l = Some "true"%string
                   <-> ActiveNav.href l0 = Some (String.append "#" id))
               /\ (ActiveNav.href l0 <> Some (String.append "#" id) ->
                   ActiveNav.ariaCurrent l = None)
               /\ forall c,
                    c <> "active"%string ->
                    (In c (ActiveNav.classList l)
                     <-> In c (ActiveNav.classList l0))).
Proof.
  split.
  - induction entries as [| e entries IH] using rev_ind; [reflexivity |].
    rewrite lastIntersecting_snoc, navCallback_snoc.
    destruct (ActiveNav.isIntersecting e); [discriminate | exact IH].
  - intros id L. split; [| intros j l0; now apply navCallback_link].
    apply navCallback_length.
Qed.

Lemma last_section_wins_witness :
  map ActiveNav.isActive
    (ActiveNav.navCallback
       [ ActiveNav.mkEntry true "about"; ActiveNav.mkEntry true "projects";
         ActiveNav.mkEntry false "contact" ]%string
       [ ActiveNav.mkLink (Some "#about") ["active"] (Some "true");
         ActiveNav.mkLink (Some "#projects") ["big"] None;
         ActiveNav.mkLink None [] None ]%string)
  = [false; true; false]
  /\ ActiveNav.navCallback [ActiveNav.mkEntry false "contact"%string]
       [ActiveNav.mkLink (Some "#about") ["active"] (Some "true")]%string
     = [ActiveNav.mkLink (Some "#about") ["active"] (Some "true")]%string.
Proof.
  split; [reflexivity |].
  apply (proj1 (last_section_wins
                  [ActiveNav.mkEntry false "contact"%string]
                  [ActiveNav.mkLink (Some "#about") ["active"]
                     (Some "true")]%string)).
  reflexivity.
Defined.

(** X19: When the links of the navigation have pairwise different [href]s,
    at most one of them is active after a report with an intersecting
    entry; and when no link points to the section that won, none is. *)
Theorem at_most_one_active (entries : list ActiveNav.Entry)
  (links : list ActiveNav.Link) (id : string) :
  ActiveNav.lastIntersecting entries = Some id ->
  (NoDup (map ActiveNav.href links) ->
   forall i j li lj,
     nth_error (ActiveNav.navCallback entries links) i = Some li ->
     nth_error (ActiveNav.navCallback entries links) j = Some lj ->
     ActiveNav.isActive li = true -> ActiveNav.isActive lj = true ->
     i = j)
  /\ ((forall l0, In l0 links ->
         ActiveNav.href l0 <> Some (String.append "#" id)) ->
      forall l,
        In l (ActiveNav.navCallback entries links) ->
        ActiveNav.isActive l = false /\ ActiveNav.ariaCurrent l = None).
Proof.
  intros L.
  assert (Back : forall i li,
             nth_error (ActiveNav.navCallback entries links) i = Some li ->
             exists l0,
               nth_error links i = Some l0
               /\ (ActiveNav.isActive li = true
                   <-> ActiveNav.href l0 = Some (String.append "#" id))
               /\ (ActiveNav.href l0 <> Some (String.append "#" id) ->
                   ActiveNav.ariaCurrent li = None)).
  { intros i li N.
    destruct (nth_error links i) as [l0 |] eqn:E.
    - destruct (navCallback_link entries links id i l0 L E)
        as (l & N' & _ & A & _ & R & _).
      rewrite N in N'. injection N' as <-. now exists l0.
    - exfalso. apply nth_error_None in E.
      assert (Len := navCallback_length entries links).
      assert (i < length (ActiveNav.navCallback entries links))%nat
        by (apply nth_error_Some; congruence).
      lia. }
  split.
  - intros ND i j li lj Ni Nj Ai Aj.
    destruct (Back i li Ni) as (a & Ea & Ha & _).
    destruct (Back j lj Nj) as (b & Eb & Hb & _).
    apply Ha in Ai. apply Hb in Aj.
    apply (proj1 (NoDup_nth_error (map ActiveNav.href links)) ND).
    + rewrite length_map. apply nth_error_Some. congruence.
    + rewrite !nth_error_map, Ea, Eb. cbn. congruence.
  - intros NoLink l I. apply In_nth_error in I. destruct I as (i & N).
    destruct (Back i l N) as (l0 & E & A & R).
    assert (D : ActiveNav.href l0 <> Some (String.append "#" id))
      by (apply NoLink; eapply nth_error_In; eauto).
    split; [| now apply R].
    destruct (ActiveNav.isActive l); [| reflexivity].
    exfalso. apply D, A. reflexivity.
Qed.

Lemma at_most_one_active_witness :
  (forall l,
     In l
       (ActiveNav.navCallback [ActiveNav.mkEntry true "hero"%string]
          [ ActiveNav.mkLink (Some "#about") ["active"] (Some "true");
            ActiveNav.mkLink (Some "#projects") [] None ]%string) ->
     ActiveNav.isActive l = false /\ ActiveNav.ariaCurrent l = None)
  /\ (forall i j li lj,
        nth_error
          (ActiveNav.navCallback [ActiveNav.mkEntry true "about"%string]
             [ ActiveNav.mkLink (Some "#about") [] None;
               ActiveNav.mkLink (Some "#projects") ["active"] None ]%string)
          i = Some li ->
        nth_error
          (ActiveNav.navCallback [ActiveNav.mkEntry true "about"%string]
             [ ActiveNav.mkLink (Some "#about") [] None;
               ActiveNav.mkLink (Some "#projects") ["active"] None ]%string)
          j = Some lj ->
        ActiveNav.isActive li = true -> ActiveNav.isActive lj = true ->
        i = j).
Proof.
  split.
  - apply (proj2 (at_most_one_active
                    [ActiveNav.mkEntry true "hero"%string]
                    [ ActiveNav.mkLink (Some "#about") ["active"]
                        (Some "true");
                      ActiveNav.mkLink (Some "#projects") [] None ]%string
                    "hero"%string eq_refl)).
    intros l0 [<- | [<- | []]]; discriminate.
  - apply (proj1 (at_most_one_active
                    [ActiveNav.mkEntry true "about"%string]
                    [ ActiveNav.mkLink (Some "#about") [] None;
                      ActiveNav.mkLink (Some "#projects") ["active"] None
                    ]%string
                    "about"%string eq_refl)).
    repeat constructor; cbn; intuition discriminate.
Defined.
